(** * Test-case manager (src/TestCasePage.tsx): model and verified properties

    A shallow embedding of the transformation layer of [TestCaseAdvancedPage]:
    the test-case data model, the handlers that change the collection
    ([addCase], [editCase], [saveCase], [deleteCase], [clearCases]), the
    graph builder [generateMermaid] and the three exporters ([exportExcel],
    [exportXMind], [exportHtml]), together with the start-up load of the
    persisted collection.  Beside these it covers the handlers of the form
    ([addStep], [deleteStep], [addBranch], [deleteBranch], the target select
    of a branch), [statusColor], the write of the collection to storage, and
    the check of the version argument in the release script.

    Conventions.
    - A JavaScript string is a [string]; non-ASCII text is kept as the UTF-8
      bytes of the source file.  The model only concatenates and compares
      strings, which is the same on UTF-8 bytes and on UTF-16 code units.
    - A [number] that holds a step index is a [Z] (the UI only stores
      integers there); an array position is a [nat].  A sum of numbers is
      rounded as a number is ([add_num]), and is the sum of the integers
      on safe integers.
    - The [Branch] objects of a draft can be the objects of stored cases;
      a write to such an object is modelled with the places of the
      collection that hold it ([writeThrough]).
    - A call that may throw returns a [Result].
    - Rendering, the file written by an export and the write of the
      collection to [localStorage] after each change are left out: an export
      is modelled up to the value it hands to the library that writes the
      file. *)

From Stdlib Require Import List String Ascii ZArith Lia Bool Arith.
From Stdlib Require Import Permutation.
From Stdlib Require Decimal DecimalString DecimalNat DecimalPos DecimalZ DecimalFacts.
Import DecimalString.
Import ListNotations.
Local Open Scope string_scope.
Set Warnings "-register-all".

(** ** JavaScript values and helpers *)

Module Js.

Inductive Error : Type := TypeError | SyntaxError.

Inductive Result (A : Type) : Type :=
| Ok (a : A)
| Throw (e : Error).
Arguments Ok {A} a.
Arguments Throw {A} e.

Definition bind {A B} (r : Result A) (k : A -> Result B) : Result B :=
  match r with
  | Ok a => k a
  | Throw e => Throw e
  end.

(** The double quote and the line feed, which the templates contain. *)
Definition dq : string := String (ascii_of_nat 34) EmptyString.
Definition nl : string := String (ascii_of_nat 10) EmptyString.

(** [String(n)] for an array position. *)
Definition str_nat (n : nat) : string :=
  NilZero.string_of_uint (Nat.to_uint n).

(** [String(z)] for an integer-valued number, which is written in
    plain decimal digits below 10^21 in magnitude. *)
Definition str_num (z : Z) : string :=
  NilZero.string_of_int (Z.to_int z).

(** [Number.isSafeInteger(z)]: an integer below 2^53 in magnitude. *)
Definition safeInteger (z : Z) : Prop :=
  (- 9007199254740992 < z < 9007199254740992)%Z.

(** The number nearest to the integer [z]: a number holds 53
    significant bits, and an integer that needs more is rounded to the
    nearest one that fits, a tie going to the even one (magnitudes below
    2^1024). *)
Definition nearest (z : Z) : Z :=
  let a := Z.abs z in
  if (a <? 2 ^ 53)%Z then z
  else
    let unit := (2 ^ (Z.log2 a - 52))%Z in
    let q := (a / unit)%Z in
    let r := (a mod unit)%Z in
    let up :=
      if (2 * r <? unit)%Z then false
      else if (unit <? 2 * r)%Z then true
      else Z.odd q in
    (Z.sgn z * ((if up then q + 1 else q) * unit))%Z.

(** [a + b] on numbers that hold integers. *)
Definition add_num (a b : Z) : Z := nearest (a + b).

(** [a || d] on strings: the empty string is falsy. *)
Definition or_else (a d : string) : string :=
  match a with
  | EmptyString => d
  | _ => a
  end.

(** [u || d] where [u] may be [undefined]. *)
Definition opt_or_else (u : option string) (d : string) : string :=
  match u with
  | None => d
  | Some a => or_else a d
  end.

(** [xs.join(sep)]. *)
Fixpoint join (sep : string) (xs : list string) : string :=
  match xs with
  | [] => EmptyString
  | [x] => x
  | x :: rest => x ++ sep ++ join sep rest
  end.

(** [xs.map((x, idx) => f x idx)], positions counted from [i]. *)
Fixpoint mapi_from {A B} (f : A -> nat -> B) (i : nat) (xs : list A) : list B :=
  match xs with
  | [] => []
  | x :: rest => f x i :: mapi_from f (S i) rest
  end.

Definition mapi {A B} (f : A -> nat -> B) (xs : list A) : list B :=
  mapi_from f 0 xs.

(** [xs.forEach((x, idx) => ...)] where the callback updates one
    captured variable: the variable is threaded as [acc]. *)
Fixpoint forEach_from {A T} (f : T -> A -> nat -> T) (i : nat) (xs : list A) (acc : T) : T :=
  match xs with
  | [] => acc
  | x :: rest => forEach_from f (S i) rest (f acc x i)
  end.

Definition forEach {A T} (f : T -> A -> nat -> T) (xs : list A) (acc : T) : T :=
  forEach_from f 0 xs acc.

(** [xs.map(f)] with a callback that may throw: the first exception
    leaves the loop. *)
Fixpoint mapM {A B} (f : A -> Result B) (xs : list A) : Result (list B) :=
  match xs with
  | [] => Ok []
  | x :: rest =>
      bind (f x) (fun y => bind (mapM f rest) (fun ys => Ok (y :: ys)))
  end.

(** [xs[z]] for a number [z]: [undefined] outside [0 .. length-1]. *)
Definition elem {A} (xs : list A) (z : Z) : option A :=
  if (z <? 0)%Z then None else nth_error xs (Z.to_nat z).

(** [xs[key]] for a string [key], as property access on an array
    evaluates it: a canonical decimal key is an element position; the
    array's own [length] and the names it inherits from
    [Array.prototype] and [Object.prototype] (ECMAScript 2023) are
    values that are neither [null] nor [undefined]; every other key is
    [undefined]. *)
Inductive Property (A : Type) : Type :=
| Element (a : A)
| Inherited
| Undefined.
Arguments Element {A} a.
Arguments Inherited {A}.
Arguments Undefined {A}.

Definition inherited_names : list string :=
  [ "length"; "constructor"; "at"; "concat"; "copyWithin"; "entries";
    "every"; "fill"; "filter"; "find"; "findIndex"; "findLast";
    "findLastIndex"; "flat"; "flatMap"; "forEach"; "includes"; "indexOf";
    "join"; "keys"; "lastIndexOf"; "map"; "pop"; "push"; "reduce";
    "reduceRight"; "reverse"; "shift"; "slice"; "some"; "sort"; "splice";
    "toLocaleString"; "toReversed"; "toSorted"; "toSpliced"; "toString";
    "unshift"; "values"; "with"; "hasOwnProperty"; "isPrototypeOf";
    "propertyIsEnumerable"; "valueOf"; "__defineGetter__";
    "__defineSetter__"; "__lookupGetter__"; "__lookupSetter__";
    "__proto__" ].

Definition canonical_index (key : string) : option nat :=
  match NilZero.uint_of_string key with
  | Some u =>
      let n := Nat.of_uint u in
      if String.eqb key (str_nat n) then Some n else None
  | None => None
  end.

Definition property {A} (xs : list A) (key : string) : Property A :=
  match canonical_index key with
  | Some n =>
      match nth_error xs n with
      | Some a => Element a
      | None => Undefined
      end
  | None =>
      if existsb (String.eqb key) inherited_names then Inherited else Undefined
  end.

End Js.
Import Js.

(** ** Data model (lines 8-16) *)

Module Model.

(** The union of the three status literals. *)
Inductive Status : Type := Success | Failure | Exception.

Definition status_text (s : Status) : string :=
  match s with
  | Success => "成功"
  | Failure => "失败"
  | Exception => "异常"
  end.

Record Branch : Type := mkBranch {
  condition : string;
  nextStep : Z
}.

Record Step : Type := mkStep {
  action : string;
  expectedStatus : Status;
  expectedValue : string;
  dependsOn : option Z;
  branches : option (list Branch)
}.

Record TestCase : Type := mkTestCase {
  id : string;
  title : string;
  precondition : string;
  steps : list Step
}.

(** [{ ...s }]: a new object with the fields of [s]. *)
Definition spread (s : Step) : Step :=
  mkStep (action s) (expectedStatus s) (expectedValue s) (dependsOn s) (branches s).

End Model.
Import Model.

(** ** Graph builder (lines 33-54) *)

(** The ternary that picks the style class, also used by [exportHtml]. *)
Definition styleClass (s : Status) : string :=
  match s with
  | Success => "success"
  | Failure => "fail"
  | Exception => "exception"
  end.

Definition classDefs : string :=
  nl ++ "classDef success fill:#dcfce7,stroke:#22c55e,color:#166534" ++ nl
     ++ "classDef fail fill:#fee2e2,stroke:#ef4444,color:#b91c1c" ++ nl
     ++ "classDef exception fill:#ffedd5,stroke:#f97316,color:#9a3412" ++ nl.

Definition generateMermaid (c : TestCase) : string :=
  let code := "graph TD" ++ nl in
  let code :=
    forEach (fun code s idx =>
      code ++ ("S" ++ str_nat idx ++ "[" ++ dq ++ action s ++ " | "
                   ++ status_text (expectedStatus s) ++ dq ++ "]" ++ nl))
      (steps c) code in
  let code :=
    forEach (fun code s idx =>
      let code :=
        match dependsOn s with
        | Some d => code ++ ("S" ++ str_num d ++ " --> S" ++ str_nat idx ++ nl)
        | None => code
        end in
      match branches s with
      | Some bs =>
          forEach (fun code b _ =>
            code ++ ("S" ++ str_nat idx ++ " -->|" ++ condition b ++ "| S"
                         ++ str_num (nextStep b) ++ nl))
            bs code
      | None => code
      end)
      (steps c) code in
  let code :=
    forEach (fun code s idx =>
      code ++ ("class S" ++ str_nat idx ++ " "
                  ++ styleClass (expectedStatus s) ++ nl))
      (steps c) code in
  code ++ classDefs.


(** ** Page state and handlers (lines 112-180) *)

Module Page.

(** The [useState] cells of the component. *)
Record State : Type := mkState {
  cases : list TestCase;
  title : string;
  precondition : string;
  steps : list Step;
  editingId : option string
}.

(** The step a fresh form starts with. *)
Definition emptyStep : Step := mkStep "" Success "" None None.

Definition initial : State := mkState [] "" "" [emptyStep] None.

Definition setCases (cs : list TestCase) (st : State) : State :=
  mkState cs (title st) (precondition st) (steps st) (editingId st).
Definition setTitle (t : string) (st : State) : State :=
  mkState (cases st) t (precondition st) (steps st) (editingId st).
Definition setPrecondition (p : string) (st : State) : State :=
  mkState (cases st) (title st) p (steps st) (editingId st).
Definition setSteps (ss : list Step) (st : State) : State :=
  mkState (cases st) (title st) (precondition st) ss (editingId st).
Definition setEditingId (e : option string) (st : State) : State :=
  mkState (cases st) (title st) (precondition st) (steps st) e.

Definition resetForm (st : State) : State :=
  setSteps [emptyStep] (setPrecondition "" (setTitle "" st)).

Definition addCase (st : State) : Result State :=
  let id := "TC-" ++ str_nat (List.length (cases st) + 1) in
  Ok (resetForm
        (setCases
           (cases st ++ [mkTestCase id (title st) (precondition st) (map spread (steps st))])%list
           st)).

Definition editCase (tc : TestCase) (st : State) : Result State :=
  Ok (setSteps
        (map (fun s =>
                mkStep (action s) (expectedStatus s) (expectedValue s) (dependsOn s)
                  (Some match branches s with
                        | Some bs => bs
                        | None => []
                        end))
             (Model.steps tc))
        (setPrecondition (Model.precondition tc)
           (setTitle (Model.title tc)
              (setEditingId (Some (id tc)) st)))).

(** What the [map] callback of [saveCase] returns for the case [c]. *)
Definition saved (editing : string) (st : State) (c : TestCase) : TestCase :=
  if String.eqb (id c) editing
  then mkTestCase (id c) (title st) (precondition st) (map spread (steps st))
  else c.

Definition saveCase (st : State) : Result State :=
  match editingId st with
  | None => Ok st
  | Some EmptyString => Ok st
  | Some editing =>
      Ok (resetForm
            (setEditingId None
               (setCases (map (saved editing st) (cases st)) st)))
  end.

(** [confirmed] is what the [confirm] dialog answered. *)
Definition deleteCase (id : string) (confirmed : bool) (st : State) : Result State :=
  if confirmed
  then Ok (setCases (filter (fun c => negb (String.eqb (Model.id c) id)) (cases st)) st)
  else Ok st.

Definition clearCases (confirmed : bool) (st : State) : Result State :=
  if confirmed then Ok (setCases [] st) else Ok st.

Definition addStep (st : State) : Result State :=
  Ok (setSteps (steps st ++ [emptyStep])%list st).

(** [xs.filter((_, i) => i !== idx)] *)
Fixpoint remove_at {A} (idx : nat) (xs : list A) : list A :=
  match xs, idx with
  | [], _ => []
  | _ :: rest, O => rest
  | x :: rest, S k => x :: remove_at k rest
  end.

Definition deleteStep (idx : nat) (st : State) : Result State :=
  Ok (setSteps (remove_at idx (steps st)) st).

(** [ns[i] = f(ns[i])] on a copy [ns] of the array; reading a field of
    [ns[i]] when [i] is past the end is a [TypeError]. *)
Fixpoint modify_at {A} (i : nat) (f : A -> Result A) (xs : list A) : Result (list A) :=
  match xs, i with
  | [], _ => Throw TypeError
  | x :: rest, O => bind (f x) (fun y => Ok (y :: rest))
  | x :: rest, S k => bind (modify_at k f rest) (fun ys => Ok (x :: ys))
  end.

Definition withBranches (s : Step) (bs : list Branch) : Step :=
  mkStep (action s) (expectedStatus s) (expectedValue s) (dependsOn s) (Some bs).

Definition addBranch (stepIdx : nat) (st : State) : Result State :=
  bind (modify_at stepIdx
          (fun s =>
             let bs := match branches s with
                       | Some bs => bs
                       | None => []
                       end in
             Ok (withBranches s (bs ++ [mkBranch "" 0%Z])%list))
          (steps st))
       (fun ns => Ok (setSteps ns st)).

Definition deleteBranch (stepIdx branchIdx : nat) (st : State) : Result State :=
  bind (modify_at stepIdx
          (fun s =>
             match branches s with
             | Some bs => Ok (withBranches s (remove_at branchIdx bs))
             | None => Throw TypeError
             end)
          (steps st))
       (fun ns => Ok (setSteps ns st)).

(** The user actions.  Typing into an input of the form is [SetForm].
    [editCase] copies the steps and the [branches] arrays but not the
    [Branch] objects, so the condition and target inputs of an edit session
    also write through to the stored case: [WriteBranch] is such a write. *)
Inductive Event : Type :=
| AddCase
| EditCase (position : nat)
| SaveCase
| DeleteCase (position : nat) (confirmed : bool)
| ClearCases (confirmed : bool)
| AddStep
| DeleteStep (idx : nat)
| AddBranch (stepIdx : nat)
| DeleteBranch (stepIdx branchIdx : nat)
| SetForm (title precondition : string) (steps : list Step)
| WriteBranch (casePos stepPos branchPos : nat) (b : Branch).

Definition writeBranch (casePos stepPos branchPos : nat) (b : Branch)
    (cs : list TestCase) : Result (list TestCase) :=
  modify_at casePos
    (fun c =>
       bind (modify_at stepPos
               (fun s =>
                  match branches s with
                  | Some bs =>
                      bind (modify_at branchPos (fun _ => Ok b) bs)
                           (fun bs' => Ok (withBranches s bs'))
                  | None => Throw TypeError
                  end)
               (Model.steps c))
            (fun ss => Ok (mkTestCase (id c) (Model.title c) (Model.precondition c) ss)))
    cs.

(** A button belongs to a rendered case, step or branch: an event on a
    position that is not rendered does not happen. *)
Definition rendered (r : Result State) (st : State) : Result State :=
  match r with
  | Ok st' => Ok st'
  | Throw _ => Ok st
  end.

Definition handle (e : Event) (st : State) : Result State :=
  match e with
  | AddCase => addCase st
  | EditCase i =>
      match nth_error (cases st) i with
      | Some tc => editCase tc st
      | None => Ok st
      end
  | SaveCase => saveCase st
  | DeleteCase i confirmed =>
      match nth_error (cases st) i with
      | Some tc => deleteCase (id tc) confirmed st
      | None => Ok st
      end
  | ClearCases confirmed => clearCases confirmed st
  | AddStep => addStep st
  | DeleteStep idx => deleteStep idx st
  | AddBranch stepIdx => rendered (addBranch stepIdx st) st
  | DeleteBranch stepIdx branchIdx => rendered (deleteBranch stepIdx branchIdx st) st
  | SetForm t p ss => Ok (setSteps ss (setPrecondition p (setTitle t st)))
  | WriteBranch ci si bi b =>
      rendered (bind (writeBranch ci si bi b (cases st))
                     (fun cs => Ok (setCases cs st)))
               st
  end.

Fixpoint run (es : list Event) (st : State) : Result State :=
  match es with
  | [] => Ok st
  | e :: rest => bind (handle e st) (run rest)
  end.

End Page.

(** ** Tabular exporter (lines 182-199)

    [exportExcel] is the [rows] array handed to [XLSX.utils.json_to_sheet]:
    one object per case, a list of (key, text) in the order of the literal. *)

Definition Row : Type := list (string * string).

Definition exportExcel (cases : list TestCase) : list Row :=
  map (fun c =>
         [ ("ID", id c);
           ("标题", title c);
           ("前置条件", precondition c);
           ("步骤",
            join nl
              (mapi (fun s idx =>
                       let branchStr :=
                         opt_or_else
                           (option_map
                              (fun bs =>
                                 join ", "
                                   (map (fun b =>
                                           "[" ++ condition b ++ " -> 步骤 "
                                               ++ str_num (add_num (nextStep b) 1) ++ "]")
                                        bs))
                              (branches s))
                           "" in
                       "步骤 " ++ str_nat (idx + 1) ++ ": " ++ action s ++ " | "
                              ++ status_text (expectedStatus s) ++ " | "
                              ++ expectedValue s ++ " " ++ branchStr)
                    (steps c))) ])
      cases.

(** ** Outline exporter (lines 201-223) *)

Module XMind.

(** A topic under construction by the builders of xmind-generator. *)
Inductive TopicT : Type :=
| mkTopic (title : string) (note : option string) (children : list TopicT).

Definition Topic (title : string) : TopicT := mkTopic title None [].
Definition RootTopic (title : string) : TopicT := mkTopic title None [].

Definition note (text : string) (t : TopicT) : TopicT :=
  match t with
  | mkTopic title _ kids => mkTopic title (Some text) kids
  end.

Definition children (cs : list TopicT) (t : TopicT) : TopicT :=
  match t with
  | mkTopic title n kids => mkTopic title n (kids ++ cs)%list
  end.

Definition topic_title (t : TopicT) : string :=
  match t with
  | mkTopic title _ _ => title
  end.

Definition topic_children (t : TopicT) : list TopicT :=
  match t with
  | mkTopic _ _ kids => kids
  end.

(** Number of topics on the longest path from [t] down to a leaf. *)
Fixpoint depth (t : TopicT) : nat :=
  match t with
  | mkTopic _ _ kids =>
      S ((fix deepest (ts : list TopicT) : nat :=
            match ts with
            | [] => 0
            | k :: rest => Nat.max (depth k) (deepest rest)
            end) kids)
  end.

End XMind.
Import XMind.

Definition branchTopic (b : Branch) : TopicT :=
  Topic ("分支: " ++ condition b ++ " -> 步骤 " ++ str_num (add_num (nextStep b) 1)).

Definition stepTopic (s : Step) (idx : nat) : TopicT :=
  let stepTopic :=
    note (expectedValue s)
      (Topic ("步骤 " ++ str_nat (idx + 1) ++ ": " ++ action s
                     ++ " [" ++ status_text (expectedStatus s) ++ "]")) in
  match branches s with
  | Some bs => children (map branchTopic bs) stepTopic
  | None => stepTopic
  end.

Definition caseTopic (c : TestCase) : TopicT :=
  children (mapi stepTopic (steps c))
    (note (or_else (precondition c) "")
       (Topic (id c ++ ": " ++ title c))).

(** The [root] handed to [Workbook]. *)
Definition exportXMind (cases : list TestCase) : TopicT :=
  children (map caseTopic cases) (RootTopic "测试用例").

(** ** Report exporter (lines 225-283) *)

Definition htmlHead : string :=
  nl ++ "<!DOCTYPE html>" ++ nl
     ++ "<html lang=" ++ dq ++ "zh" ++ dq ++ ">" ++ nl
     ++ "<head>" ++ nl
     ++ "<meta charset=" ++ dq ++ "UTF-8" ++ dq ++ ">" ++ nl
     ++ "<title>测试用例导出</title>" ++ nl
     ++ "<style>" ++ nl
     ++ "body { font-family: " ++ dq ++ "Segoe UI" ++ dq
     ++ ", Roboto, sans-serif; background: #f3f4f6; margin:0; }" ++ nl
     ++ ".case-card { background:#fff; padding:16px; margin:16px; border-radius:12px; box-shadow:0 2px 8px rgba(0,0,0,0.1); }" ++ nl
     ++ ".status-success { color:green; font-weight:bold; }" ++ nl
     ++ ".status-fail { color:red; font-weight:bold; }" ++ nl
     ++ ".status-exception { color:orange; font-weight:bold; }" ++ nl
     ++ "ol, ul { padding-left:20px; }" ++ nl
     ++ "</style>" ++ nl
     ++ "</head>" ++ nl
     ++ "<body>" ++ nl
     ++ "<h1 style=" ++ dq ++ "text-align:center;" ++ dq ++ ">测试用例手册</h1>" ++ nl.

Definition htmlTail : string :=
  nl ++ "</body>" ++ nl ++ "</html>" ++ nl.

(** The placeholder of a branch target that does not resolve. *)
Definition unknownStep : string := "未知操作".

(** [cases[c.id as any]?.steps[b.nextStep]?.action]: the array [cases] is
    read at the key [c.id].  When that is [undefined] the chain stops with
    [undefined]; when it is a case, its steps are read at [b.nextStep];
    when it is another value, its [steps] is [undefined] and reading
    [undefined[b.nextStep]] is a [TypeError]. *)
Definition branchTarget (cases : list TestCase) (c : TestCase) (b : Branch)
    : Result (option string) :=
  match property cases (id c) with
  | Undefined => Ok None
  | Element found => Ok (option_map action (elem (steps found) (nextStep b)))
  | Inherited => Throw TypeError
  end.

Definition branchItem (cases : list TestCase) (c : TestCase) (b : Branch)
    : Result string :=
  bind (branchTarget cases c b) (fun target =>
  Ok ("<li>条件: " ++ condition b ++ " → 下一步: "
        ++ opt_or_else target unknownStep ++ "</li>")).

Definition branchList (cases : list TestCase) (c : TestCase) (s : Step)
    : Result string :=
  match branches s with
  | Some (b :: bs) =>
      bind (mapM (branchItem cases c) (b :: bs)) (fun items =>
      Ok (nl ++ "<ul>" ++ nl ++ join "" items ++ nl ++ "</ul>" ++ nl))
  | _ => Ok ""
  end.

Definition stepItem (cases : list TestCase) (c : TestCase) (s : Step)
    : Result string :=
  bind (branchList cases c s) (fun nested =>
  Ok (nl ++ "<li>" ++ nl
         ++ "操作: " ++ action s ++ " → 状态: <span class=" ++ dq ++ "status-"
         ++ styleClass (expectedStatus s) ++ dq ++ ">"
         ++ status_text (expectedStatus s) ++ "</span> → 期望值: "
         ++ or_else (expectedValue s) "无" ++ nl
         ++ nested ++ nl
         ++ "</li>" ++ nl)).

Definition caseCard (cases : list TestCase) (c : TestCase) : Result string :=
  bind (mapM (stepItem cases c) (steps c)) (fun items =>
  Ok (nl ++ "<div class=" ++ dq ++ "case-card" ++ dq ++ ">" ++ nl
         ++ "<h2>" ++ id c ++ ": " ++ title c ++ "</h2>" ++ nl
         ++ "<p>前置条件: " ++ or_else (precondition c) "无" ++ "</p>" ++ nl
         ++ "<ol>" ++ nl
         ++ join "" items ++ nl
         ++ "</ol>" ++ nl
         ++ "</div>" ++ nl)).

(** The [html] string handed to [saveAs]. *)
Definition exportHtml (cases : list TestCase) : Result string :=
  bind (mapM (caseCard cases) cases) (fun cards =>
  Ok (htmlHead ++ join "" cards ++ htmlTail)).

(** ** Start-up load of the persisted collection (lines 113-117) *)

(** [JSON.parse] on the JSON grammar (ECMA-404): a lexer that reads the
    text one character at a time, then a parser that keeps the open arrays
    and objects on a stack.  A number keeps its lexeme; a string keeps its
    characters, an escape [\uXXXX] as the UTF-8 bytes of that code unit, and
    two escapes that form a surrogate pair as the UTF-8 bytes of the code
    point of the pair. *)
Module JSON.

Local Open Scope nat_scope.

Inductive value : Type :=
| JNull
| JBool (b : bool)
| JNumber (lexeme : string)
| JString (s : string)
| JArray (items : list value)
| JObject (members : list (string * value)).

Inductive token : Type :=
| TLBrace | TRBrace | TLBracket | TRBracket | TColon | TComma
| TTrue | TFalse | TNull
| TNum (lexeme : string)
| TStr (s : string).

(** States of the number automaton: an optional minus sign; a zero, or
    a non-zero digit and more digits; optionally a dot and digits;
    optionally an exponent mark, a sign and digits. *)
Inductive nstate : Type :=
| NMinus | NZero | NInt | NDot | NFrac | NExp | NExpSign | NExpDigits.

Definition naccept (st : nstate) : bool :=
  match st with
  | NZero | NInt | NFrac | NExpDigits => true
  | _ => false
  end.

Definition is_digit (k : nat) : bool := (48 <=? k) && (k <=? 57).

Definition nstep (st : nstate) (k : nat) : option nstate :=
  let dot := k =? 46 in
  let e := (k =? 101) || (k =? 69) in
  let sign := (k =? 43) || (k =? 45) in
  match st with
  | NMinus => if k =? 48 then Some NZero else if is_digit k then Some NInt else None
  | NZero => if dot then Some NDot else if e then Some NExp else None
  | NInt =>
      if is_digit k then Some NInt
      else if dot then Some NDot else if e then Some NExp else None
  | NDot => if is_digit k then Some NFrac else None
  | NFrac => if is_digit k then Some NFrac else if e then Some NExp else None
  | NExp =>
      if sign then Some NExpSign else if is_digit k then Some NExpDigits else None
  | NExpSign => if is_digit k then Some NExpDigits else None
  | NExpDigits => if is_digit k then Some NExpDigits else None
  end.

Inductive lstate : Type :=
| LStart
| LLit (rest : string) (tok : token)
| LNum (st : nstate) (seen : list ascii)
| LStr (seen : list ascii)
| LEsc (seen : list ascii)
| LHex (seen : list ascii) (digits : list nat)
| LHigh (seen : list ascii) (high : nat)
| LHighEsc (seen : list ascii) (high : nat)
| LHighHex (seen : list ascii) (high : nat) (digits : list nat).

Definition text_of (seen : list ascii) : string :=
  string_of_list_ascii (rev seen).

Definition hex_value (k : nat) : option nat :=
  if is_digit k then Some (k - 48)
  else if (97 <=? k) && (k <=? 102) then Some (k - 87)
  else if (65 <=? k) && (k <=? 70) then Some (k - 55)
  else None.

(** The UTF-8 bytes of a code point; a surrogate that stands alone is
    written like any other 16-bit code unit. *)
Definition utf8 (u : nat) : list ascii :=
  if u <? 128 then [ascii_of_nat u]
  else if u <? 2048 then
    [ascii_of_nat (192 + u / 64); ascii_of_nat (128 + u mod 64)]
  else if u <? 256 * 256 then
    [ascii_of_nat (224 + u / 4096); ascii_of_nat (128 + (u / 64) mod 64);
     ascii_of_nat (128 + u mod 64)]
  else
    [ascii_of_nat (240 + u / (1024 * 256)); ascii_of_nat (128 + (u / 4096) mod 64);
     ascii_of_nat (128 + (u / 64) mod 64); ascii_of_nat (128 + u mod 64)].

(** The two halves of a surrogate pair, D800 to DBFF and DC00 to DFFF
    in hexadecimal, and the code point of a pair. *)
Definition is_high (u : nat) : bool := (216 * 256 <=? u) && (u <? 220 * 256).
Definition is_low (u : nat) : bool := (220 * 256 <=? u) && (u <? 224 * 256).
Definition paired (high low : nat) : nat :=
  256 * 256 + (high - 216 * 256) * 1024 + (low - 220 * 256).

Definition lex_start (c : ascii) : option (list token * lstate) :=
  let k := nat_of_ascii c in
  if (k =? 32) || (k =? 9) || (k =? 10) || (k =? 13) then Some ([], LStart)
  else if k =? 123 then Some ([TLBrace], LStart)
  else if k =? 125 then Some ([TRBrace], LStart)
  else if k =? 91 then Some ([TLBracket], LStart)
  else if k =? 93 then Some ([TRBracket], LStart)
  else if k =? 58 then Some ([TColon], LStart)
  else if k =? 44 then Some ([TComma], LStart)
  else if k =? 34 then Some ([], LStr [])
  else if k =? 45 then Some ([], LNum NMinus [c])
  else if k =? 48 then Some ([], LNum NZero [c])
  else if is_digit k then Some ([], LNum NInt [c])
  else if k =? 116 then Some ([], LLit "rue" TTrue)
  else if k =? 102 then Some ([], LLit "alse" TFalse)
  else if k =? 110 then Some ([], LLit "ull" TNull)
  else None.

(** A character inside a string, and one after a backslash. *)
Definition str_char (seen : list ascii) (c : ascii) : option (list token * lstate) :=
  let k := nat_of_ascii c in
  if k =? 34 then Some ([TStr (text_of seen)], LStart)
  else if k =? 92 then Some ([], LEsc seen)
  else if k <? 32 then None
  else Some ([], LStr (c :: seen)).

Definition esc_char (seen : list ascii) (c : ascii) : option (list token * lstate) :=
  let k := nat_of_ascii c in
  if (k =? 34) || (k =? 92) || (k =? 47) then Some ([], LStr (c :: seen))
  else if k =? 98 then Some ([], LStr (ascii_of_nat 8 :: seen))
  else if k =? 102 then Some ([], LStr (ascii_of_nat 12 :: seen))
  else if k =? 110 then Some ([], LStr (ascii_of_nat 10 :: seen))
  else if k =? 114 then Some ([], LStr (ascii_of_nat 13 :: seen))
  else if k =? 116 then Some ([], LStr (ascii_of_nat 9 :: seen))
  else if k =? 117 then Some ([], LHex seen [])
  else None.

(** The code unit [u] of a four-digit escape is read: a high surrogate
    waits for the low surrogate that may follow it. *)
Definition unit_read (seen : list ascii) (u : nat) : lstate :=
  if is_high u then LHigh seen u else LStr (rev (utf8 u) ++ seen)%list.

Definition lex_step (st : lstate) (c : ascii) : option (list token * lstate) :=
  let k := nat_of_ascii c in
  match st with
  | LStart => lex_start c
  | LLit EmptyString _ => None
  | LLit (String e rest) tok =>
      if Ascii.eqb c e then
        match rest with
        | EmptyString => Some ([tok], LStart)
        | _ => Some ([], LLit rest tok)
        end
      else None
  | LNum n seen =>
      match nstep n k with
      | Some n' => Some ([], LNum n' (c :: seen))
      | None =>
          if naccept n then
            match lex_start c with
            | Some (toks, st') => Some (TNum (text_of seen) :: toks, st')
            | None => None
            end
          else None
      end
  | LStr seen => str_char seen c
  | LEsc seen => esc_char seen c
  | LHex seen digits =>
      match hex_value k, digits with
      | Some h, [a; b; d] =>
          Some ([], unit_read seen (((a * 16 + b) * 16 + d) * 16 + h))
      | Some h, _ => Some ([], LHex seen (digits ++ [h])%list)
      | None, _ => None
      end
  | LHigh seen high =>
      if k =? 92 then Some ([], LHighEsc seen high)
      else str_char (rev (utf8 high) ++ seen)%list c
  | LHighEsc seen high =>
      if k =? 117 then Some ([], LHighHex seen high [])
      else esc_char (rev (utf8 high) ++ seen)%list c
  | LHighHex seen high digits =>
      match hex_value k, digits with
      | Some h, [a; b; d] =>
          let low := ((a * 16 + b) * 16 + d) * 16 + h in
          if is_low low
          then Some ([], LStr (rev (utf8 (paired high low)) ++ seen)%list)
          else Some ([], unit_read (rev (utf8 high) ++ seen)%list low)
      | Some h, _ => Some ([], LHighHex seen high (digits ++ [h])%list)
      | None, _ => None
      end
  end.

Definition lex_end (st : lstate) : option (list token) :=
  match st with
  | LStart => Some []
  | LNum n seen => if naccept n then Some [TNum (text_of seen)] else None
  | _ => None
  end.

Fixpoint lex (st : lstate) (s : string) : option (list token) :=
  match s with
  | EmptyString => lex_end st
  | String c rest =>
      match lex_step st c with
      | Some (toks, st') => option_map (app toks) (lex st' rest)
      | None => None
      end
  end.

(** The container a value under construction goes into. *)
Inductive frame : Type :=
| InArr (items : list value)
| InObj (members : list (string * value)) (key : string).

Inductive pstate : Type :=
| ExpectValue (stack : list frame)
| ExpectValueOrEnd (stack : list frame)
| ExpectKeyOrEnd (stack : list frame)
| ExpectKey (members : list (string * value)) (stack : list frame)
| ExpectColon (members : list (string * value)) (key : string) (stack : list frame)
| AfterItem (items : list value) (stack : list frame)
| AfterMember (members : list (string * value)) (stack : list frame)
| Done (v : value).

Definition plug (v : value) (stack : list frame) : pstate :=
  match stack with
  | [] => Done v
  | InArr items :: outer => AfterItem (v :: items) outer
  | InObj members key :: outer => AfterMember ((key, v) :: members) outer
  end.

Definition value_start (stack : list frame) (t : token) : option pstate :=
  match t with
  | TNull => Some (plug JNull stack)
  | TTrue => Some (plug (JBool true) stack)
  | TFalse => Some (plug (JBool false) stack)
  | TNum lexeme => Some (plug (JNumber lexeme) stack)
  | TStr s => Some (plug (JString s) stack)
  | TLBracket => Some (ExpectValueOrEnd stack)
  | TLBrace => Some (ExpectKeyOrEnd stack)
  | _ => None
  end.

Definition pstep (st : pstate) (t : token) : option pstate :=
  match st, t with
  | ExpectValue stack, _ => value_start stack t
  | ExpectValueOrEnd stack, TRBracket => Some (plug (JArray []) stack)
  | ExpectValueOrEnd stack, _ => value_start (InArr [] :: stack) t
  | ExpectKeyOrEnd stack, TRBrace => Some (plug (JObject []) stack)
  | ExpectKeyOrEnd stack, TStr key => Some (ExpectColon [] key stack)
  | ExpectKey members stack, TStr key => Some (ExpectColon members key stack)
  | ExpectColon members key stack, TColon =>
      Some (ExpectValue (InObj members key :: stack))
  | AfterItem items stack, TComma => Some (ExpectValue (InArr items :: stack))
  | AfterItem items stack, TRBracket => Some (plug (JArray (rev items)) stack)
  | AfterMember members stack, TComma => Some (ExpectKey members stack)
  | AfterMember members stack, TRBrace => Some (plug (JObject (rev members)) stack)
  | _, _ => None
  end.

Fixpoint prun (st : pstate) (ts : list token) : option value :=
  match ts with
  | [] =>
      match st with
      | Done v => Some v
      | _ => None
      end
  | t :: rest =>
      match pstep st t with
      | Some st' => prun st' rest
      | None => None
      end
  end.

Definition parse (text : string) : Result value :=
  match lex LStart text with
  | Some ts =>
      match prun (ExpectValue []) ts with
      | Some v => Ok v
      | None => Throw SyntaxError
      end
  | None => Throw SyntaxError
  end.

End JSON.

(** The initializer of the [cases] state.  [saved] is what
    [localStorage.getItem(STORAGE_KEY)] returned, [None] for [null]; the
    value is used as the collection without any check of its shape. *)
Definition initialCases (saved : option string) : Result JSON.value :=
  match saved with
  | Some (String _ _ as text) => JSON.parse text
  | _ => Ok (JSON.JArray [])
  end.

(** ** The graph description as data

    What the text of [generateMermaid] declares, as lists: the node
    declarations, the edges and the class assignments.  [edges] lists the
    edges in the order of the second loop of the source; [edgesTwoPasses]
    is the order the specification describes. *)

Definition nodeDecl (s : Step) (idx : nat) : string :=
  "S" ++ str_nat idx ++ "[" ++ dq ++ action s ++ " | "
      ++ status_text (expectedStatus s) ++ dq ++ "]" ++ nl.

Definition classLine (s : Step) (idx : nat) : string :=
  "class S" ++ str_nat idx ++ " " ++ styleClass (expectedStatus s) ++ nl.

Inductive Edge : Type :=
| DependencyEdge (source : Z) (target : nat)
| BranchEdge (source : nat) (label : string) (target : Z).

Definition edgeLine (e : Edge) : string :=
  match e with
  | DependencyEdge d idx => "S" ++ str_num d ++ " --> S" ++ str_nat idx ++ nl
  | BranchEdge idx label target =>
      "S" ++ str_nat idx ++ " -->|" ++ label ++ "| S" ++ str_num target ++ nl
  end.

Definition dependencyEdges (s : Step) (idx : nat) : list Edge :=
  match dependsOn s with
  | Some d => [DependencyEdge d idx]
  | None => []
  end.

Definition branchesOf (s : Step) : list Branch :=
  match branches s with
  | Some bs => bs
  | None => []
  end.

Definition branchEdges (s : Step) (idx : nat) : list Edge :=
  map (fun b => BranchEdge idx (condition b) (nextStep b)) (branchesOf s).

Definition edges (c : TestCase) : list Edge :=
  List.concat
    (mapi (fun s idx => (dependencyEdges s idx ++ branchEdges s idx)%list) (steps c)).

Definition edgesTwoPasses (c : TestCase) : list Edge :=
  (List.concat (mapi dependencyEdges (steps c))
     ++ List.concat (mapi branchEdges (steps c)))%list.

Definition render (nodes : list string) (es : list Edge) (classes : list string)
    : string :=
  "graph TD" ++ nl ++ join "" nodes ++ join "" (map edgeLine es)
             ++ join "" classes ++ classDefs.

(** ** The formats of the exports, as the specification words them *)

Definition branchSummary (s : Step) : string :=
  match branches s with
  | None | Some [] => ""
  | Some bs =>
      join ", "
        (map (fun b =>
                "[" ++ condition b ++ " -> 步骤 " ++ str_num (nextStep b + 1) ++ "]")
             bs)
  end.

Definition stepLine (s : Step) (idx : nat) : string :=
  "步骤 " ++ str_nat (idx + 1) ++ ": " ++ action s ++ " | "
         ++ status_text (expectedStatus s) ++ " | " ++ expectedValue s
         ++ " " ++ branchSummary s.

(** The branch targets of a step are safe integers, as every position
    of a step is. *)
Definition safeBranches (s : Step) : Prop :=
  forall b, In b (branchesOf s) -> safeInteger (nextStep b).

(** The row of a case with the column names and the words Step that the
    specification quotes. *)
Definition quotedBranchSummary (s : Step) : string :=
  join ", "
    (map (fun b =>
            "[" ++ condition b ++ " -> Step " ++ str_num (nextStep b + 1) ++ "]")
         (branchesOf s)).

Definition quotedStepLine (s : Step) (idx : nat) : string :=
  "Step " ++ str_nat (idx + 1) ++ ": " ++ action s ++ " | "
          ++ status_text (expectedStatus s) ++ " | " ++ expectedValue s
          ++ " " ++ quotedBranchSummary s.

Definition quotedRow (c : TestCase) : Row :=
  [ ("id", id c); ("title", title c); ("precondition", precondition c);
    ("steps", join nl (mapi quotedStepLine (steps c))) ].

Definition hasBranch (c : TestCase) : bool :=
  existsb (fun s => match branchesOf s with
                    | [] => false
                    | _ :: _ => true
                    end)
          (steps c).

(** An id that [addCase] assigns. *)
Definition assignedId (text : string) : Prop :=
  exists n : nat, text = "TC-" ++ str_nat n.

(** ** Sample collections *)

(** The collection of the scenario in the specification. *)
Definition scenario_case : TestCase :=
  mkTestCase "TC-1" "Login" "user exists"
    [ mkStep "enter creds" Success "" None None;
      mkStep "submit" Success "redirect" (Some 0%Z)
        (Some [mkBranch "invalid" 0%Z]) ].

(** A step whose first branch points at step 0 and whose second branch
    points past the end of a two-step case. *)
Definition dangling_case : TestCase :=
  mkTestCase "TC-1" "Checkout" ""
    [ mkStep "open cart" Success "" None None;
      mkStep "pay" Failure "declined" None
        (Some [mkBranch "retry" 0%Z; mkBranch "abort" 5%Z]) ].

(** A branch of step 0 to step 1, and step 1 depending on step 0. *)
Definition interleaved_case : TestCase :=
  mkTestCase "TC-1" "Order" ""
    [ mkStep "first" Success "" None (Some [mkBranch "go" 1%Z]);
      mkStep "second" Success "" (Some 0%Z) None ].

Definition stepless_case : TestCase := mkTestCase "TC-1" "" "" [].

(** ** Status colour (lines 20-31) *)

Definition statusColor (status : string) : string :=
  if String.eqb status "成功" then "green"
  else if String.eqb status "失败" then "red"
  else if String.eqb status "异常" then "orange"
  else "black".

(** How often the text [pattern] occurs in [text]. *)
Fixpoint occurrences (pattern text : string) : nat :=
  match text with
  | EmptyString => 0
  | String _ rest =>
      (if String.prefix pattern text then 1 else 0) + occurrences pattern rest
  end.

(** The colour that a style sheet declares first in its rule for
    [selector]: the text between the opening of the rule, that is the
    selector, a brace and the property name, and the next semicolon. *)
Definition declaredColor (sheet selector : string) : option string :=
  let opening := selector ++ " { color:" in
  match String.index 0 opening sheet with
  | Some start =>
      let from := start + String.length opening in
      match String.index from ";" sheet with
      | Some stop => Some (String.substring from (stop - from) sheet)
      | None => None
      end
  | None => None
  end.

(** ** Inputs of a branch in the form (lines 361-378) *)

(** [xs.findIndex(p)], [None] for -1. *)
Fixpoint findIndex {A} (p : A -> bool) (xs : list A) : option nat :=
  match xs with
  | [] => None
  | x :: rest => if p x then Some 0 else option_map S (findIndex p rest)
  end.

(** The [value] of the option that the target select shows for the step
    at position [idx]. *)
Definition optionValue (step : Step) (idx : nat) : string :=
  or_else (action step) ("步骤 " ++ str_nat (idx + 1)).


(** The place of a branch in the collection: the positions of its
    case, of its step and of the branch in the step. *)
Definition Place : Type := (nat * nat * nat)%type.

Definition samePlace (p q : Place) : bool :=
  let '(ci, si, bi) := p in
  let '(cj, sj, bj) := q in
  Nat.eqb ci cj && Nat.eqb si sj && Nat.eqb bi bj.


(** The assignment [branch.nextStep = target] as the collection sees it:
    [editCase] and [saveCase] copy the steps and the [branches] arrays but
    not the [Branch] objects, so the branch of the draft can be the very
    object that stored cases hold, at the places [shared]; the branches at
    these places get the new target with the assignment, and nothing else
    of the collection changes. *)
Definition writeThrough (target : Z) (shared : list Place) (cs : list TestCase)
    : list TestCase :=
  mapi (fun c ci =>
          mkTestCase (id c) (title c) (precondition c)
            (mapi (fun s si =>
                     match branches s with
                     | Some bs =>
                         Page.withBranches s
                           (mapi (fun b bi =>
                                    if existsb (samePlace (ci, si, bi)) shared
                                    then mkBranch (condition b) target
                                    else b)
                                 bs)
                     | None => s
                     end)
                  (steps c)))
       cs.

(** [onChange] of the target select of branch [bi] of step [i], where
    [value] is [e.target.value] and [shared] are the places of the stored
    cases that hold the [Branch] object of the draft (none for a branch that
    [addBranch] made): the branch changes when a step has that action. *)
Definition selectTarget (i bi : nat) (value : string) (shared : list Place)
    (st : Page.State) : Result Page.State :=
  match findIndex (fun step => String.eqb (action step) value) (Page.steps st) with
  | Some targetIdx =>
      bind (Page.modify_at i
              (fun s =>
                 match branches s with
                 | Some bs =>
                     bind (Page.modify_at bi
                             (fun b => Ok (mkBranch (condition b) (Z.of_nat targetIdx)))
                             bs)
                          (fun bs' => Ok (Page.withBranches s bs'))
                 | None => Throw TypeError
                 end)
              (Page.steps st))
           (fun ns =>
              Ok (Page.setSteps ns
                    (Page.setCases
                       (writeThrough (Z.of_nat targetIdx) shared (Page.cases st))
                       st)))
  | None => Ok st
  end.


(** The state of an edit session on a stored case with a branch: the
    draft is what [editCase] copies from the case. *)
Definition editing_state : Page.State :=
  Page.mkState
    [ mkTestCase "TC-1" "route" ""
        [ mkStep "a" Success "" None (Some [mkBranch "" 0%Z]);
          mkStep "b" Success "" None None;
          mkStep "b" Failure "" None None;
          mkStep "" Success "" None None ] ]
    "route" ""
    [ mkStep "a" Success "" None (Some [mkBranch "" 0%Z]);
      mkStep "b" Success "" None (Some []);
      mkStep "b" Failure "" None (Some []);
      mkStep "" Success "" None (Some []) ]
    (Some "TC-1").

(** ** Descriptions used by further statements *)

(** A step with a missing [branches] read as the empty list, as
    [editCase] copies it. *)
Definition withDefaultBranches (s : Step) : Step :=
  mkStep (action s) (expectedStatus s) (expectedValue s) (dependsOn s)
    (Some (branchesOf s)).

Definition normalized (c : TestCase) : TestCase :=
  mkTestCase (id c) (title c) (precondition c) (map withDefaultBranches (steps c)).

(** The ids TC-1, TC-2, ... in the order of the collection. *)
Definition sequentialIds (cs : list TestCase) : Prop :=
  map id cs = map (fun k => "TC-" ++ str_nat (k + 1)) (seq 0 (List.length cs)).

(** A deletion that the user confirmed. *)
Definition removesCase (e : Page.Event) : bool :=
  match e with
  | Page.DeleteCase _ true => true
  | _ => false
  end.


(** ** Version argument of the release script (part_000, lines 33-43) *)

Module Release.

Definition isDigit (c : ascii) : bool :=
  let k := nat_of_ascii c in ((48 <=? k) && (k <=? 57))%nat.

(** The rest of the text after the digits it starts with. *)
Fixpoint skipDigits (s : string) : string :=
  match s with
  | String c rest => if isDigit c then skipDigits rest else s
  | EmptyString => EmptyString
  end.

(** One digit or more, then the rest. *)
Definition digits1 (s : string) : option string :=
  match s with
  | String c rest => if isDigit c then Some (skipDigits rest) else None
  | EmptyString => None
  end.

Definition dot (s : string) : option string :=
  match s with
  | String c rest => if Ascii.eqb c "." then Some rest else None
  | EmptyString => None
  end.

Definition startsWithV (s : string) : bool :=
  match s with
  | String c _ => Ascii.eqb c "v"
  | EmptyString => false
  end.

(** The regular expression of line 36: an optional v, then three groups
    of digits separated by dots, up to the end of the text. *)
Definition matchesVersion (version : string) : bool :=
  let body :=
    match version with
    | String c rest => if Ascii.eqb c "v" then rest else version
    | EmptyString => version
    end in
  match digits1 body with
  | Some r1 =>
      match dot r1 with
      | Some r2 =>
          match digits1 r2 with
          | Some r3 =>
              match dot r3 with
              | Some r4 =>
                  match digits1 r4 with
                  | Some EmptyString => true
                  | _ => false
                  end
              | None => false
              end
          | None => false
          end
      | None => false
      end
  | None => false
  end.

(** [version.replace('v', '')]: the first v is taken out. *)
Fixpoint replaceFirstV (s : string) : string :=
  match s with
  | String c rest => if Ascii.eqb c "v" then rest else String c (replaceFirstV rest)
  | EmptyString => EmptyString
  end.

(** Lines 34-43 of [prepareRelease]: [None] is the usage error that ends
    the process, otherwise [cleanVersion] and [tagVersion]. *)
Definition versions (argument : option string) : option (string * string) :=
  match argument with
  | Some version =>
      match version with
      | EmptyString => None
      | _ =>
          if matchesVersion version
          then Some (replaceFirstV version,
                     if startsWithV version then version else "v" ++ version)
          else None
      end
  | None => None
  end.

End Release.

(** ** Write of the collection to storage (lines 124-126)

    After every change of [cases] the effect stores
    [JSON.stringify(cases)].  [stringify] is [JSON.stringify] on the values
    of [JSON.value]: no blanks, a string quoted with the escapes of
    ECMAScript's QuoteJSONString.  [toJson] is the collection as
    [JSON.stringify] reads it, a field that is [undefined] being left out;
    [fromJson] reads a parsed value as a collection, which is what the type
    given to the [cases] state claims for it. *)

Module Storage.

Definition backslash : string := String (ascii_of_nat 92) EmptyString.

Definition hexDigit (n : nat) : string :=
  String (ascii_of_nat (if (n <? 10)%nat then 48 + n else 87 + n)) EmptyString.

Definition quoteChar (c : ascii) : string :=
  let k := nat_of_ascii c in
  if (k =? 34)%nat then backslash ++ dq
  else if (k =? 92)%nat then backslash ++ backslash
  else if (k =? 8)%nat then backslash ++ "b"
  else if (k =? 9)%nat then backslash ++ "t"
  else if (k =? 10)%nat then backslash ++ "n"
  else if (k =? 12)%nat then backslash ++ "f"
  else if (k =? 13)%nat then backslash ++ "r"
  else if (k <? 32)%nat
       then backslash ++ "u00" ++ hexDigit (k / 16) ++ hexDigit (k mod 16)
  else String c EmptyString.

Fixpoint quoteBody (s : string) : string :=
  match s with
  | EmptyString => EmptyString
  | String c rest => quoteChar c ++ quoteBody rest
  end.

Definition quote (s : string) : string := dq ++ quoteBody s ++ dq.

Fixpoint stringify (v : JSON.value) : string :=
  match v with
  | JSON.JNull => "null"
  | JSON.JBool true => "true"
  | JSON.JBool false => "false"
  | JSON.JNumber lexeme => lexeme
  | JSON.JString s => quote s
  | JSON.JArray items => "[" ++ join "," (map stringify items) ++ "]"
  | JSON.JObject members =>
      "{" ++ join ","
               (map (fun member => quote (fst member) ++ ":" ++ stringify (snd member))
                    members)
          ++ "}"
  end.

Definition branchJson (b : Branch) : JSON.value :=
  JSON.JObject
    [ ("condition", JSON.JString (condition b));
      ("nextStep", JSON.JNumber (str_num (nextStep b))) ].

Definition stepJson (s : Step) : JSON.value :=
  JSON.JObject
    ([ ("action", JSON.JString (action s));
       ("expectedStatus", JSON.JString (status_text (expectedStatus s)));
       ("expectedValue", JSON.JString (expectedValue s)) ]
     ++ match dependsOn s with
        | Some d => [("dependsOn", JSON.JNumber (str_num d))]
        | None => []
        end
     ++ match branches s with
        | Some bs => [("branches", JSON.JArray (map branchJson bs))]
        | None => []
        end)%list.

Definition caseJson (c : TestCase) : JSON.value :=
  JSON.JObject
    [ ("id", JSON.JString (id c));
      ("title", JSON.JString (title c));
      ("precondition", JSON.JString (precondition c));
      ("steps", JSON.JArray (map stepJson (steps c))) ].

Definition toJson (cases : list TestCase) : JSON.value :=
  JSON.JArray (map caseJson cases).

(** What the effect writes for the collection [cases]. *)
Definition persisted (cases : list TestCase) : string := stringify (toJson cases).

(** [object[key]]: of two members with the same key the later one counts. *)
Definition field (key : string) (members : list (string * JSON.value))
    : option JSON.value :=
  fold_left (fun found member =>
               if String.eqb (fst member) key then Some (snd member) else found)
            members None.

Definition asString (v : JSON.value) : option string :=
  match v with
  | JSON.JString s => Some s
  | _ => None
  end.

(** An integer lexeme as the number it denotes. *)
Definition asNumber (v : JSON.value) : option Z :=
  match v with
  | JSON.JNumber lexeme => option_map Z.of_int (NilZero.int_of_string lexeme)
  | _ => None
  end.

Definition asStatus (v : JSON.value) : option Status :=
  match v with
  | JSON.JString s =>
      if String.eqb s "成功" then Some Success
      else if String.eqb s "失败" then Some Failure
      else if String.eqb s "异常" then Some Exception
      else None
  | _ => None
  end.

Fixpoint all {A B} (f : A -> option B) (xs : list A) : option (list B) :=
  match xs with
  | [] => Some []
  | x :: rest =>
      match f x, all f rest with
      | Some y, Some ys => Some (y :: ys)
      | _, _ => None
      end
  end.

(** A field that may be missing. *)
Definition optional {A} (read : JSON.value -> option A) (found : option JSON.value)
    : option (option A) :=
  match found with
  | None => Some None
  | Some v => option_map Some (read v)
  end.

Definition required {A} (read : JSON.value -> option A) (found : option JSON.value)
    : option A :=
  match found with
  | None => None
  | Some v => read v
  end.

Definition asList {A} (read : JSON.value -> option A) (v : JSON.value)
    : option (list A) :=
  match v with
  | JSON.JArray items => all read items
  | _ => None
  end.

Definition asBranch (v : JSON.value) : option Branch :=
  match v with
  | JSON.JObject members =>
      match required asString (field "condition" members),
            required asNumber (field "nextStep" members) with
      | Some c, Some n => Some (mkBranch c n)
      | _, _ => None
      end
  | _ => None
  end.

Definition asStep (v : JSON.value) : option Step :=
  match v with
  | JSON.JObject members =>
      match required asString (field "action" members),
            required asStatus (field "expectedStatus" members),
            required asString (field "expectedValue" members),
            optional asNumber (field "dependsOn" members),
            optional (asList asBranch) (field "branches" members) with
      | Some a, Some s, Some e, Some d, Some bs => Some (mkStep a s e d bs)
      | _, _, _, _, _ => None
      end
  | _ => None
  end.

Definition asCase (v : JSON.value) : option TestCase :=
  match v with
  | JSON.JObject members =>
      match required asString (field "id" members),
            required asString (field "title" members),
            required asString (field "precondition" members),
            required (asList asStep) (field "steps" members) with
      | Some i, Some t, Some p, Some ss => Some (mkTestCase i t p ss)
      | _, _, _, _ => None
      end
  | _ => None
  end.

Definition fromJson (v : JSON.value) : option (list TestCase) := asList asCase v.

(** The tokens of the text of a value. *)
Fixpoint separated (groups : list (list JSON.token)) : list JSON.token :=
  match groups with
  | [] => []
  | [g] => g
  | g :: rest => (g ++ JSON.TComma :: separated rest)%list
  end.

Fixpoint tokens (v : JSON.value) : list JSON.token :=
  match v with
  | JSON.JNull => [JSON.TNull]
  | JSON.JBool true => [JSON.TTrue]
  | JSON.JBool false => [JSON.TFalse]
  | JSON.JNumber lexeme => [JSON.TNum lexeme]
  | JSON.JString s => [JSON.TStr s]
  | JSON.JArray items =>
      (JSON.TLBracket :: separated (map tokens items) ++ [JSON.TRBracket])%list
  | JSON.JObject members =>
      (JSON.TLBrace
         :: separated
              (map (fun member =>
                      JSON.TStr (fst member) :: JSON.TColon :: tokens (snd member))
                   members)
         ++ [JSON.TRBrace])%list
  end.

(** A text that is empty or starts with a comma or a closing bracket or
    brace: what follows a value in the text of a value. *)
Definition delimited (tail : string) : Prop :=
  tail = EmptyString
  \/ exists rest, tail = "," ++ rest \/ tail = "]" ++ rest \/ tail = "}" ++ rest.

(** The numbers of the value are integers as [String] writes them. *)
Fixpoint integral (v : JSON.value) : Prop :=
  match v with
  | JSON.JNumber lexeme => exists z : Z, lexeme = str_num z
  | JSON.JArray items =>
      (fix each (l : list JSON.value) : Prop :=
         match l with
         | [] => True
         | x :: rest => integral x /\ each rest
         end) items
  | JSON.JObject members =>
      (fix each (l : list (string * JSON.value)) : Prop :=
         match l with
         | [] => True
         | m :: rest => integral (snd m) /\ each rest
         end) members
  | _ => True
  end.

End Storage.

(** * Properties *)

(** ** Strings, loops and positions *)

Lemma append_assoc (a b c : string) : (a ++ b) ++ c = a ++ (b ++ c).
Proof. induction a as [|x a IH]; simpl; [reflexivity | now rewrite IH]. Qed.

Lemma append_nil_r (a : string) : a ++ "" = a.
Proof. induction a as [|x a IH]; simpl; [reflexivity | now rewrite IH]. Qed.

Lemma join_empty_cons (x : string) (xs : list string) :
  join "" (x :: xs) = x ++ join "" xs.
Proof. destruct xs; simpl; [now rewrite append_nil_r | reflexivity]. Qed.

Lemma join_empty_app (xs ys : list string) :
  join "" (xs ++ ys) = join "" xs ++ join "" ys.
Proof.
  induction xs as [|x xs IH]; [reflexivity|].
  change ((x :: xs) ++ ys)%list with (x :: (xs ++ ys))%list.
  now rewrite !join_empty_cons, IH, append_assoc.
Qed.

Lemma join_empty_concat {A} (f : A -> string) (xss : list (list A)) :
  join "" (map f (List.concat xss)) = join "" (map (fun xs => join "" (map f xs)) xss).
Proof.
  induction xss as [|xs xss IH]; [reflexivity|].
  simpl List.concat. rewrite map_app, join_empty_app, IH.
  simpl map. now rewrite join_empty_cons.
Qed.

Lemma mapi_from_length {A B} (f : A -> nat -> B) (xs : list A) (i : nat) :
  List.length (mapi_from f i xs) = List.length xs.
Proof. revert i; induction xs; intro i; simpl; [reflexivity | now rewrite IHxs]. Qed.

Lemma mapi_from_nth {A B} (f : A -> nat -> B) (xs : list A) (i k : nat) :
  nth_error (mapi_from f i xs) k = option_map (fun x => f x (i + k)) (nth_error xs k).
Proof.
  revert i k; induction xs as [|x xs IH]; intros i k.
  - now destruct k.
  - destruct k; simpl.
    + now rewrite Nat.add_0_r.
    + rewrite IH. now rewrite Nat.add_succ_r.
Qed.

Lemma mapi_nth {A B} (f : A -> nat -> B) (xs : list A) (k : nat) :
  nth_error (mapi f xs) k = option_map (fun x => f x k) (nth_error xs k).
Proof. unfold mapi. now rewrite mapi_from_nth. Qed.

Lemma mapi_length {A B} (f : A -> nat -> B) (xs : list A) :
  List.length (mapi f xs) = List.length xs.
Proof. apply mapi_from_length. Qed.

Lemma mapi_from_map {A B C} (g : B -> C) (f : A -> nat -> B) (xs : list A) (i : nat) :
  map g (mapi_from f i xs) = mapi_from (fun x k => g (f x k)) i xs.
Proof. revert i; induction xs; intro i; simpl; [reflexivity | now rewrite IHxs]. Qed.

(** A loop whose body appends to the captured string builds the
    concatenation of what each pass appends. *)
Lemma forEach_from_appends {A} (f : string -> A -> nat -> string)
    (g : A -> nat -> string) (xs : list A) :
  (forall code x i, f code x i = code ++ g x i) ->
  forall i code, forEach_from f i xs code = code ++ join "" (mapi_from g i xs).
Proof.
  intros Hf. induction xs as [|x xs IH]; intros i code.
  - simpl. now rewrite append_nil_r.
  - cbn [forEach_from mapi_from]. rewrite IH, Hf, join_empty_cons.
    now rewrite append_assoc.
Qed.

Lemma forEach_appends {A} (f : string -> A -> nat -> string)
    (g : A -> nat -> string) (xs : list A) (code : string) :
  (forall code x i, f code x i = code ++ g x i) ->
  forEach f xs code = code ++ join "" (mapi g xs).
Proof. intros Hf. now apply forEach_from_appends. Qed.

Lemma mapi_from_const {A B} (f : A -> B) (xs : list A) (i : nat) :
  mapi_from (fun x _ => f x) i xs = map f xs.
Proof. revert i; induction xs; intro i; simpl; [reflexivity | now rewrite IHxs]. Qed.

Lemma dependencyEdges_text (s : Step) (idx : nat) :
  join "" (map edgeLine (dependencyEdges s idx))
  = match dependsOn s with
    | Some d => "S" ++ str_num d ++ " --> S" ++ str_nat idx ++ nl
    | None => ""
    end.
Proof. unfold dependencyEdges. now destruct (dependsOn s). Qed.

Lemma branchEdges_text (s : Step) (idx : nat) :
  join "" (map edgeLine (branchEdges s idx))
  = join ""
      (map (fun b => "S" ++ str_nat idx ++ " -->|" ++ condition b ++ "| S"
                         ++ str_num (nextStep b) ++ nl)
           (branchesOf s)).
Proof. unfold branchEdges. now rewrite map_map. Qed.

(** The text of [generateMermaid] is the rendering of the three lists. *)
Lemma generateMermaid_render (c : TestCase) :
  generateMermaid c
  = render (mapi nodeDecl (steps c)) (edges c) (mapi classLine (steps c)).
Proof.
  unfold generateMermaid, render.
  rewrite (forEach_appends _ classLine) by reflexivity.
  rewrite (forEach_appends _
             (fun s idx => join "" (map edgeLine (dependencyEdges s idx ++ branchEdges s idx)%list))).
  - rewrite (forEach_appends _ nodeDecl) by reflexivity.
    unfold edges. rewrite join_empty_concat.
    unfold mapi. rewrite mapi_from_map.
    now rewrite !append_assoc.
  - intros code s idx.
    rewrite map_app, join_empty_app, dependencyEdges_text, branchEdges_text.
    unfold branchesOf.
    destruct (branches s) as [bs|].
    + rewrite (forEach_appends _
                 (fun b _ => "S" ++ str_nat idx ++ " -->|" ++ condition b ++ "| S"
                                 ++ str_num (nextStep b) ++ nl)) by reflexivity.
      unfold mapi. rewrite mapi_from_const.
      destruct (dependsOn s); [now rewrite append_assoc | reflexivity].
    + destruct (dependsOn s); simpl join; now rewrite append_nil_r.
Qed.

Lemma to_uint_not_nil (n : nat) : Nat.to_uint n <> Decimal.Nil.
Proof.
  intro H. assert (E : n = 0).
  { rewrite <- (DecimalNat.Unsigned.of_to n), H. reflexivity. }
  subst n. discriminate H.
Qed.

Lemma str_nat_parses (n : nat) :
  NilZero.uint_of_string (str_nat n) = Some (Nat.to_uint n).
Proof. unfold str_nat. apply NilZero.usu, to_uint_not_nil. Qed.

Lemma str_nat_inj (n m : nat) : str_nat n = str_nat m -> n = m.
Proof.
  intro H. apply DecimalNat.Unsigned.to_uint_inj.
  pose proof (str_nat_parses n) as Hn. rewrite H, str_nat_parses in Hn.
  now injection Hn.
Qed.

Lemma canonical_index_str_nat (n : nat) : canonical_index (str_nat n) = Some n.
Proof.
  unfold canonical_index. rewrite str_nat_parses, DecimalNat.Unsigned.of_to.
  now rewrite String.eqb_refl.
Qed.

Lemma styleClass_inj (a b : Status) : styleClass a = styleClass b -> a = b.
Proof. destruct a, b; simpl; intro H; (reflexivity || discriminate H). Qed.

(** ** Graph builder *)

(** C6. For every test case, [generateMermaid] emits one node declaration
    per step, in the order of the steps: the declaration at position [idx]
    names the node [S<idx>] and is labelled with the action and the expected
    status of step [idx]; the class assignment at position [idx] tags
    [S<idx>] with the style class of that status; and the three statuses
    have three different classes, success, fail and exception. *)
Theorem generateMermaid_nodes (c : TestCase) :
  generateMermaid c
    = render (mapi nodeDecl (steps c)) (edges c) (mapi classLine (steps c))
  /\ List.length (mapi nodeDecl (steps c)) = List.length (steps c)
  /\ List.length (mapi classLine (steps c)) = List.length (steps c)
  /\ (forall idx s,
        nth_error (steps c) idx = Some s ->
        nth_error (mapi nodeDecl (steps c)) idx
          = Some ("S" ++ str_nat idx ++ "[" ++ dq ++ action s ++ " | "
                      ++ status_text (expectedStatus s) ++ dq ++ "]" ++ nl)
        /\ nth_error (mapi classLine (steps c)) idx
          = Some ("class S" ++ str_nat idx ++ " "
                      ++ styleClass (expectedStatus s) ++ nl))
  /\ (forall i j, str_nat i = str_nat j -> i = j)
  /\ styleClass Success = "success"
  /\ styleClass Failure = "fail"
  /\ styleClass Exception = "exception"
  /\ (forall a b, styleClass a = styleClass b -> a = b).
Proof.
  split; [apply generateMermaid_render|].
  split; [apply mapi_length|].
  split; [apply mapi_length|].
  split.
  - intros idx s Hs. rewrite !mapi_nth, Hs. split; reflexivity.
  - split; [exact str_nat_inj|].
    repeat split. exact styleClass_inj.
Qed.

Lemma generateMermaid_nodes_witness :
  nth_error (mapi nodeDecl (steps scenario_case)) 1
    = Some ("S1[" ++ dq ++ "submit | 成功" ++ dq ++ "]" ++ nl)
  /\ nth_error (mapi classLine (steps scenario_case)) 1
    = Some ("class S1 success" ++ nl).
Proof.
  exact (proj1 (proj2 (proj2 (proj2 (generateMermaid_nodes scenario_case))))
           1 (mkStep "submit" Success "redirect" (Some 0%Z)
                (Some [mkBranch "invalid" 0%Z]))
           eq_refl).
Defined.

(** The graph description of the scenario of the specification. *)
Example generateMermaid_scenario :
  generateMermaid scenario_case
  = "graph TD" ++ nl
    ++ "S0[" ++ dq ++ "enter creds | 成功" ++ dq ++ "]" ++ nl
    ++ "S1[" ++ dq ++ "submit | 成功" ++ dq ++ "]" ++ nl
    ++ "S0 --> S1" ++ nl
    ++ "S1 -->|invalid| S0" ++ nl
    ++ "class S0 success" ++ nl
    ++ "class S1 success" ++ nl
    ++ classDefs.
Proof. reflexivity. Qed.

Lemma concat_mapi_from_split {A B} (f g : A -> nat -> list B) (xs : list A) (i : nat) :
  Permutation
    (List.concat (mapi_from (fun x k => (f x k ++ g x k)%list) i xs))
    (List.concat (mapi_from f i xs) ++ List.concat (mapi_from g i xs))%list.
Proof.
  revert i. induction xs as [|x xs IH]; intro i; simpl.
  - constructor.
  - rewrite <- !app_assoc. apply Permutation_app_head.
    rewrite (IH (S i)). apply Permutation_app_swap_app.
Qed.

Lemma in_concat_mapi {A B} (f : A -> nat -> list B) (xs : list A) (y : B) :
  In y (List.concat (mapi f xs))
  <-> exists idx x, nth_error xs idx = Some x /\ In y (f x idx).
Proof.
  rewrite in_concat. split.
  - intros [group [Hg Hy]].
    apply In_nth_error in Hg. destruct Hg as [idx Hidx].
    rewrite mapi_nth in Hidx.
    destruct (nth_error xs idx) as [x|] eqn:Hx; [|discriminate Hidx].
    injection Hidx as <-. now exists idx, x.
  - intros [idx [x [Hx Hy]]]. exists (f x idx). split; [|exact Hy].
    apply (nth_error_In _ idx). now rewrite mapi_nth, Hx.
Qed.

(** C7, as the code has it.  The edges of the text are, for each step in
    step order, its dependency edge [d -> idx] when it declares
    [dependsOn = d] (whether or not it has branches), then one edge
    [idx -> b.nextStep] labelled [b.condition] for each of its branches in
    their own order: one pass over the steps.  The same edges, each as many
    times, are what two passes would list. *)
Theorem generateMermaid_edges (c : TestCase) :
  generateMermaid c
    = render (mapi nodeDecl (steps c)) (edges c) (mapi classLine (steps c))
  /\ (exists groups,
        edges c = List.concat groups
        /\ List.length groups = List.length (steps c)
        /\ forall idx s,
             nth_error (steps c) idx = Some s ->
             nth_error groups idx
             = Some (match dependsOn s with
                     | Some d => [DependencyEdge d idx]
                     | None => []
                     end
                     ++ map (fun b => BranchEdge idx (condition b) (nextStep b))
                            (branchesOf s))%list)
  /\ (forall e,
        In e (edges c)
        <-> (exists idx s d,
               nth_error (steps c) idx = Some s /\ dependsOn s = Some d
               /\ e = DependencyEdge d idx)
            \/ (exists idx s b,
                  nth_error (steps c) idx = Some s /\ In b (branchesOf s)
                  /\ e = BranchEdge idx (condition b) (nextStep b)))
  /\ Permutation (edges c) (edgesTwoPasses c).
Proof.
  split; [apply generateMermaid_render|].
  split.
  { eexists. split; [reflexivity|]. split; [apply mapi_length|].
    intros idx s Hs. now rewrite mapi_nth, Hs. }
  split.
  { intro e. unfold edges. rewrite in_concat_mapi. split.
    - intros [idx [s [Hs He]]]. apply in_app_or in He as [He|He].
      + left. unfold dependencyEdges in He.
        destruct (dependsOn s) as [d|] eqn:Hd; [|contradiction].
        destruct He as [<-|[]]. now exists idx, s, d.
      + right. unfold branchEdges in He. apply in_map_iff in He.
        destruct He as [b [<- Hb]]. now exists idx, s, b.
    - intros [[idx [s [d [Hs [Hd ->]]]]] | [idx [s [b [Hs [Hb ->]]]]]];
        exists idx, s; (split; [exact Hs|]); apply in_or_app.
      + left. unfold dependencyEdges. rewrite Hd. now left.
      + right. unfold branchEdges. apply in_map_iff. now exists b. }
  apply concat_mapi_from_split.
Qed.

Lemma generateMermaid_edges_witness :
  In (DependencyEdge 0%Z 1) (edges scenario_case).
Proof.
  apply (proj2 (proj1 (proj2 (proj2 (generateMermaid_edges scenario_case))) _)).
  left. exists 1, (mkStep "submit" Success "redirect" (Some 0%Z)
                     (Some [mkBranch "invalid" 0%Z])), 0%Z.
  repeat split; reflexivity.
Defined.

(** C7, as stated, fails: in [interleaved_case] the branch edge of step 0
    is emitted before the dependency edge of step 1, so the text is not the
    one with all dependency edges first. *)
Lemma generateMermaid_not_two_passes :
  edges interleaved_case = [BranchEdge 0 "go" 1%Z; DependencyEdge 0%Z 1]
  /\ edgesTwoPasses interleaved_case = [DependencyEdge 0%Z 1; BranchEdge 0 "go" 1%Z]
  /\ generateMermaid interleaved_case
     <> render (mapi nodeDecl (steps interleaved_case))
               (edgesTwoPasses interleaved_case)
               (mapi classLine (steps interleaved_case)).
Proof.
  split; [reflexivity|]. split; [reflexivity|].
  apply String.eqb_neq. vm_compute. reflexivity.
Qed.

(** ** Tabular exporter *)

Lemma or_else_empty (a : string) : or_else a "" = a.
Proof. now destruct a. Qed.

Lemma mapi_from_ext {A B} (f g : A -> nat -> B) (xs : list A) (i : nat) :
  (forall x k, f x k = g x k) -> mapi_from f i xs = mapi_from g i xs.
Proof.
  intro H. revert i. induction xs as [|x xs IH]; intro i; simpl;
    [reflexivity | now rewrite H, IH].
Qed.

Lemma add_num_safe (z : Z) : safeInteger z -> add_num z 1 = (z + 1)%Z.
Proof.
  unfold safeInteger, add_num, nearest. intro H.
  change (2 ^ 53)%Z with 9007199254740992%Z.
  destruct (Z.ltb_spec (Z.abs (z + 1)) 9007199254740992) as [_|Hbig];
    [reflexivity|].
  assert (z = 9007199254740991%Z) as -> by lia. reflexivity.
Qed.

Lemma branchStr_summary (s : Step) :
  safeBranches s ->
  opt_or_else
    (option_map
       (fun bs =>
          join ", "
            (map (fun b => "[" ++ condition b ++ " -> 步骤 "
                               ++ str_num (add_num (nextStep b) 1) ++ "]") bs))
       (branches s))
    ""
  = branchSummary s.
Proof.
  unfold safeBranches, branchesOf, branchSummary. intro Hsafe.
  destruct (branches s) as [bs|]; [|reflexivity].
  cbn [option_map opt_or_else]. rewrite or_else_empty.
  rewrite (map_ext_in _ (fun b => "[" ++ condition b ++ " -> 步骤 "
                                      ++ str_num (nextStep b + 1) ++ "]") bs).
  - now destruct bs.
  - intros b Hb. now rewrite (add_num_safe _ (Hsafe b Hb)).
Qed.

(** C8, as the code has it.  [exportExcel] produces one row per case of
    the collection, in order, with the four columns ID, 标题, 前置条件 and
    步骤 that hold id, title, precondition and steps; the steps cell has one
    line per step, and the line of a step whose branch targets are safe
    integers is [stepLine]: the word 步骤, the step's 1-based position,
    action, expected status and expected value followed by the branch
    summary, that is the entries "[condition -> 步骤 nextStep+1]" of the
    branches joined by a comma and a blank, and nothing when the step has no
    branch. *)
Theorem exportExcel_rows (cases : list TestCase) :
  List.length (exportExcel cases) = List.length cases
  /\ (forall i c,
        nth_error cases i = Some c ->
        exists lines,
          nth_error (exportExcel cases) i
          = Some [ ("ID", id c); ("标题", title c); ("前置条件", precondition c);
                   ("步骤", join nl lines) ]
          /\ List.length lines = List.length (steps c)
          /\ forall idx s,
               nth_error (steps c) idx = Some s ->
               safeBranches s ->
               nth_error lines idx = Some (stepLine s idx))
  /\ (forall s idx,
        stepLine s idx
        = "步骤 " ++ str_nat (idx + 1) ++ ": " ++ action s ++ " | "
                 ++ status_text (expectedStatus s) ++ " | " ++ expectedValue s
                 ++ " " ++ branchSummary s)
  /\ (forall s, branchesOf s = [] -> branchSummary s = "")
  /\ (forall s,
        branchSummary s
        = join ", "
            (map (fun b => "[" ++ condition b ++ " -> 步骤 "
                               ++ str_num (nextStep b + 1) ++ "]")
                 (branchesOf s))).
Proof.
  split; [apply length_map|].
  split.
  { intros i c Hc. unfold exportExcel. rewrite nth_error_map, Hc.
    cbn [option_map]. eexists. split; [reflexivity|].
    split; [apply mapi_length|].
    intros idx s Hs Hsafe. rewrite mapi_nth, Hs. cbn [option_map].
    now rewrite branchStr_summary. }
  split; [reflexivity|].
  split.
  - intros s. unfold branchesOf, branchSummary.
    destruct (branches s) as [[|b bs]|]; (reflexivity || discriminate).
  - intro s. unfold branchesOf, branchSummary.
    now destruct (branches s) as [[|b bs]|].
Qed.

Lemma exportExcel_rows_witness :
  exists lines,
    nth_error (exportExcel [scenario_case]) 0
    = Some [ ("ID", "TC-1"); ("标题", "Login"); ("前置条件", "user exists");
             ("步骤", join nl lines) ]
    /\ nth_error lines 0 = Some "步骤 1: enter creds | 成功 |  "
    /\ nth_error lines 1
       = Some "步骤 2: submit | 成功 | redirect [invalid -> 步骤 1]".
Proof.
  destruct (proj1 (proj2 (exportExcel_rows [scenario_case]))
              0 scenario_case eq_refl) as [lines [Hrow [_ Hline]]].
  exists lines. split; [exact Hrow|]. split.
  - apply (Hline 0 (mkStep "enter creds" Success "" None None) eq_refl).
    intros b [].
  - apply (Hline 1 (mkStep "submit" Success "redirect" (Some 0%Z)
                      (Some [mkBranch "invalid" 0%Z])) eq_refl).
    intros b [<-|[]]. unfold safeInteger. cbn [nextStep]. lia.
Defined.

(** C8, as stated, fails on the scenario of the specification: the
    columns of the row are named ID, 标题, 前置条件 and 步骤, and its lines
    and branch entries say 步骤, where the quoted format has id, title,
    precondition, steps and Step; and a branch target of 2^53 is shown as
    2^53, since the sum with 1 is rounded, not as the 1-based 2^53 + 1. *)
Lemma exportExcel_not_as_quoted :
  exportExcel [scenario_case]
  = [ [ ("ID", "TC-1"); ("标题", "Login"); ("前置条件", "user exists");
        ("步骤",
         "步骤 1: enter creds | 成功 |  " ++ nl
           ++ "步骤 2: submit | 成功 | redirect [invalid -> 步骤 1]") ] ]
  /\ quotedRow scenario_case
     = [ ("id", "TC-1"); ("title", "Login"); ("precondition", "user exists");
         ("steps",
          "Step 1: enter creds | 成功 |  " ++ nl
            ++ "Step 2: submit | 成功 | redirect [invalid -> Step 1]") ]
  /\ exportExcel [scenario_case] <> [quotedRow scenario_case]
  /\ exportExcel
       [mkTestCase "TC-1" "far" ""
          [mkStep "go" Success "" None
             (Some [mkBranch "always" 9007199254740992%Z])]]
     = [ [ ("ID", "TC-1"); ("标题", "far"); ("前置条件", "");
           ("步骤", "步骤 1: go | 成功 |  [always -> 步骤 9007199254740992]") ] ].
Proof.
  split; [reflexivity|]. split; [reflexivity|].
  split; [discriminate|reflexivity].
Qed.

(** ** Outline exporter *)

Lemma depth_unfold (t : string) (n : option string) (kids : list TopicT) :
  depth (mkTopic t n kids) = S (list_max (map depth kids)).
Proof.
  simpl. f_equal. induction kids as [|k kids IH]; [reflexivity|].
  simpl. now rewrite IH.
Qed.

Lemma branchTopic_depth (b : Branch) : depth (branchTopic b) = 1.
Proof. reflexivity. Qed.

Lemma stepTopic_children (s : Step) (idx : nat) :
  topic_children (stepTopic s idx) = map branchTopic (branchesOf s).
Proof. unfold stepTopic, branchesOf. now destruct (branches s). Qed.

Lemma stepTopic_depth (s : Step) (idx : nat) :
  depth (stepTopic s idx)
  = match branchesOf s with
    | [] => 1
    | _ :: _ => 2
    end.
Proof.
  pose proof (stepTopic_children s idx) as H.
  destruct (stepTopic s idx) as [t n kids]. simpl in H. subst kids.
  rewrite depth_unfold. destruct (branchesOf s) as [|b bs]; [reflexivity|].
  f_equal. simpl map. change (depth (branchTopic b)) with 1.
  simpl list_max. induction bs as [|b' bs IH]; [reflexivity|].
  simpl. simpl in IH. destruct (list_max (map depth (map branchTopic bs))); lia.
Qed.

Lemma steps_depth (ss : list Step) (i : nat) :
  list_max (map depth (mapi_from stepTopic i ss))
  = if existsb (fun s => match branchesOf s with
                         | [] => false
                         | _ :: _ => true
                         end) ss
    then 2
    else match ss with
         | [] => 0
         | _ :: _ => 1
         end.
Proof.
  revert i. induction ss as [|s ss IH]; intro i; [reflexivity|].
  cbn [mapi_from map list_max fold_right existsb].
  change (fold_right Nat.max 0 (map depth (mapi_from stepTopic (S i) ss)))
    with (list_max (map depth (mapi_from stepTopic (S i) ss))).
  rewrite IH, stepTopic_depth.
  destruct (branchesOf s); cbn [orb];
    destruct (existsb _ ss); destruct ss; reflexivity.
Qed.

Lemma caseTopic_children (c : TestCase) :
  topic_children (caseTopic c) = mapi stepTopic (steps c).
Proof. reflexivity. Qed.

Lemma caseTopic_depth (c : TestCase) :
  depth (caseTopic c)
  = if hasBranch c then 3
    else match steps c with
         | [] => 1
         | _ :: _ => 2
         end.
Proof.
  unfold caseTopic, children, note, Topic. cbn [app].
  rewrite depth_unfold. unfold mapi. rewrite steps_depth. unfold hasBranch.
  destruct (existsb _ (steps c)); [reflexivity|]. now destruct (steps c).
Qed.

(** C9, as the code has it.  The root has one topic per case; below the
    root, the tree of a case is 4 topics deep (root, case, step, branch)
    when a step of the case has a branch, 3 deep when the case has steps
    and no branch, and 2 deep (root, case) when the case has no step.  The
    topic of step [idx] is the child [idx] of the case topic, and its
    children are the topics of its branches, which are leaves. *)
Theorem exportXMind_depth (cases : list TestCase) :
  topic_children (exportXMind cases) = map caseTopic cases
  /\ depth (exportXMind cases) = 1 + list_max (map depth (map caseTopic cases))
  /\ (forall c,
        (hasBranch c = true -> 1 + depth (caseTopic c) = 4)
        /\ (hasBranch c = false -> steps c <> [] -> 1 + depth (caseTopic c) = 3)
        /\ (steps c = [] -> 1 + depth (caseTopic c) = 2)
        /\ forall idx s,
             nth_error (steps c) idx = Some s ->
             nth_error (topic_children (caseTopic c)) idx = Some (stepTopic s idx)
             /\ topic_children (stepTopic s idx) = map branchTopic (branchesOf s))
  /\ (forall b,
        topic_children (branchTopic b) = []
        /\ topic_title (branchTopic b)
           = "分支: " ++ condition b ++ " -> 步骤 "
                      ++ str_num (add_num (nextStep b) 1)).
Proof.
  split; [reflexivity|].
  split.
  { unfold exportXMind, children, RootTopic. cbn [app]. apply depth_unfold. }
  split; [|intro b; split; reflexivity].
  intro c. rewrite caseTopic_depth.
  split; [now intros ->|].
  split; [intros -> Hs; now destruct (steps c)|].
  split; [intros Hs; unfold hasBranch; now rewrite Hs|].
  intros idx s Hs. split; [|apply stepTopic_children].
  rewrite caseTopic_children, mapi_nth, Hs. reflexivity.
Qed.

Lemma exportXMind_depth_witness :
  1 + depth (caseTopic scenario_case) = 4.
Proof.
  exact (proj1 (proj1 (proj2 (proj2 (exportXMind_depth [scenario_case])))
                  scenario_case) eq_refl).
Defined.

(** C9, as stated, fails: deleting the only step of the form and adding
    the case stores a case with no step; it has no branch anywhere, and its
    tree is 2 topics deep, not 3. *)
Lemma exportXMind_stepless_depth :
  (exists st,
     Page.run [Page.DeleteStep 0; Page.AddCase] Page.initial = Ok st
     /\ Page.cases st = [stepless_case])
  /\ hasBranch stepless_case = false
  /\ 1 + depth (caseTopic stepless_case) = 2
  /\ depth (exportXMind [stepless_case]) = 2.
Proof.
  split; [eexists; split; reflexivity|]. repeat split.
Qed.

(** ** Report exporter *)

Lemma mapM_map {A B} (f : A -> Result B) (g : A -> B) (xs : list A) :
  (forall x, In x xs -> f x = Ok (g x)) -> mapM f xs = Ok (map g xs).
Proof.
  induction xs as [|x xs IH]; intro H; [reflexivity|].
  simpl. rewrite (H x (or_introl eq_refl)). simpl.
  rewrite IH; [reflexivity|]. intros y Hy. apply H. now right.
Qed.

Lemma mapM_total {A B} (f : A -> Result B) (xs : list A) :
  (forall x, In x xs -> exists y, f x = Ok y) ->
  exists ys, mapM f xs = Ok ys /\ List.length ys = List.length xs.
Proof.
  induction xs as [|x xs IH]; intro H; [now exists []|].
  destruct (H x (or_introl eq_refl)) as [y Hy].
  destruct IH as [ys [Hys Hlen]]; [intros z Hz; apply H; now right|].
  exists (y :: ys). simpl. rewrite Hy. simpl. rewrite Hys. simpl.
  now rewrite Hlen.
Qed.

(** A key that starts with the letter T is no element position and no
    inherited name: the array has no such property. *)
Lemma property_T {A} (xs : list A) (rest : string) :
  property xs (String "T" rest) = Undefined.
Proof.
  unfold property, canonical_index. cbn [NilZero.uint_of_string].
  cbn [NilEmpty.uint_of_string].
  destruct (NilEmpty.uint_of_string rest); reflexivity.
Qed.

Lemma property_assigned {A} (xs : list A) (key : string) :
  assignedId key -> property xs key = Undefined.
Proof. intros [n ->]. apply property_T. Qed.

(** A key that is the decimal text of a position reads that position. *)
Lemma property_position {A} (xs : list A) (n : nat) :
  property xs (str_nat n)
  = match nth_error xs n with
    | Some a => Element a
    | None => Undefined
    end.
Proof. unfold property. now rewrite canonical_index_str_nat. Qed.

(** The placeholder entry of a branch. *)
Lemma branchItem_assigned (cases : list TestCase) (c : TestCase) (b : Branch) :
  assignedId (id c) ->
  branchItem cases c b
  = Ok ("<li>条件: " ++ condition b ++ " → 下一步: " ++ unknownStep ++ "</li>").
Proof.
  intro H. unfold branchItem, branchTarget. now rewrite property_assigned.
Qed.

Lemma stepItem_total (cases : list TestCase) (c : TestCase) (s : Step) :
  assignedId (id c) -> exists text, stepItem cases c s = Ok text.
Proof.
  intro H. unfold stepItem, branchList.
  destruct (branches s) as [[|b bs]|]; try (eexists; reflexivity).
  rewrite (mapM_map _
             (fun b => "<li>条件: " ++ condition b ++ " → 下一步: "
                                   ++ unknownStep ++ "</li>")).
  - eexists; reflexivity.
  - intros b' _. now apply branchItem_assigned.
Qed.

Lemma caseCard_total (cases : list TestCase) (c : TestCase) :
  assignedId (id c) -> exists text, caseCard cases c = Ok text.
Proof.
  intro H. unfold caseCard.
  destruct (mapM_total (stepItem cases c) (steps c)) as [items [E _]].
  - intros s _. now apply stepItem_total.
  - rewrite E. eexists; reflexivity.
Qed.

(** With ids that [addCase] assigned, the export returns. *)
Lemma exportHtml_total (cases : list TestCase) :
  Forall (fun c => assignedId (id c)) cases ->
  exists html, exportHtml cases = Ok html.
Proof.
  intro H. unfold exportHtml.
  destruct (mapM_total (caseCard cases) cases) as [cards [E _]].
  - intros c Hc. apply caseCard_total.
    rewrite Forall_forall in H. now apply H.
  - rewrite E. eexists; reflexivity.
Qed.

(** C1, at the collection of the scenario: the branch of step 1 has
    [nextStep = 0], a valid position whose step has the action
    "enter creds", and its entry shows the placeholder instead.  The array
    [cases] has no property named "TC-1", so the lookup of the target stops
    before it reads the steps. *)
Theorem exportHtml_branch_target_lost :
  option_map action (elem (steps scenario_case) 0) = Some "enter creds"
  /\ property [scenario_case] (id scenario_case) = Undefined
  /\ branchItem [scenario_case] scenario_case (mkBranch "invalid" 0%Z)
     = Ok "<li>条件: invalid → 下一步: 未知操作</li>"
  /\ exportHtml [scenario_case]
     = Ok (htmlHead
           ++ nl ++ "<div class=" ++ dq ++ "case-card" ++ dq ++ ">" ++ nl
           ++ "<h2>TC-1: Login</h2>" ++ nl
           ++ "<p>前置条件: user exists</p>" ++ nl
           ++ "<ol>" ++ nl
           ++ nl ++ "<li>" ++ nl
           ++ "操作: enter creds → 状态: <span class=" ++ dq ++ "status-success"
           ++ dq ++ ">成功</span> → 期望值: 无" ++ nl
           ++ nl
           ++ "</li>" ++ nl
           ++ nl ++ "<li>" ++ nl
           ++ "操作: submit → 状态: <span class=" ++ dq ++ "status-success"
           ++ dq ++ ">成功</span> → 期望值: redirect" ++ nl
           ++ nl ++ "<ul>" ++ nl
           ++ "<li>条件: invalid → 下一步: 未知操作</li>" ++ nl
           ++ "</ul>" ++ nl
           ++ nl
           ++ "</li>" ++ nl
           ++ nl
           ++ "</ol>" ++ nl
           ++ "</div>" ++ nl
           ++ htmlTail).
Proof. repeat split. Qed.

(** C2, at a case with two steps whose second step has a branch to step 0
    and a branch to step 5: both entries show the placeholder, not only the
    one that is out of range. *)
Theorem exportHtml_placeholder_on_valid_branch :
  option_map action (elem (steps dangling_case) 0) = Some "open cart"
  /\ elem (steps dangling_case) 5 = None
  /\ mapM (branchItem [dangling_case] dangling_case)
          [mkBranch "retry" 0%Z; mkBranch "abort" 5%Z]
     = Ok [ "<li>条件: retry → 下一步: 未知操作</li>";
            "<li>条件: abort → 下一步: 未知操作</li>" ].
Proof. repeat split. Qed.

(** A collection read from storage may carry any id.  When the id is the
    name of a property that arrays have, the export throws; when it is the
    decimal text of a position, the target is looked up in the case at that
    position, whichever case the branch belongs to. *)
Example exportHtml_inherited_id_throws :
  exportHtml
    [mkTestCase "length" "" "" [mkStep "a" Success "" None (Some [mkBranch "x" 0%Z])]]
  = Throw TypeError.
Proof. reflexivity. Qed.

Example exportHtml_position_id_other_case :
  let first := mkTestCase "1" "" "" [mkStep "a" Success "" None (Some [mkBranch "x" 0%Z])] in
  let second := mkTestCase "0" "" "" [mkStep "b" Success "" None None] in
  branchItem [first; second] first (mkBranch "x" 0%Z)
  = Ok "<li>条件: x → 下一步: b</li>".
Proof. reflexivity. Qed.

(** ** Start-up load *)

Example parse_collection :
  JSON.parse ("[{" ++ dq ++ "id" ++ dq ++ ":" ++ dq ++ "TC-1" ++ dq ++ ","
                   ++ dq ++ "steps" ++ dq ++ ":[{" ++ dq ++ "dependsOn" ++ dq
                   ++ ": 0}]}]")
  = Ok (JSON.JArray
          [JSON.JObject
             [("id", JSON.JString "TC-1");
              ("steps", JSON.JArray [JSON.JObject [("dependsOn", JSON.JNumber "0")]])]]).
Proof. reflexivity. Qed.

Example parse_rejects :
  JSON.parse "{" = Throw SyntaxError
  /\ JSON.parse "[1,]" = Throw SyntaxError
  /\ JSON.parse "01" = Throw SyntaxError
  /\ JSON.parse "tru" = Throw SyntaxError
  /\ JSON.parse "[] x" = Throw SyntaxError
  /\ JSON.parse " " = Throw SyntaxError.
Proof. repeat split. Qed.

Lemma parse_throws_SyntaxError (text : string) (e : Error) :
  JSON.parse text = Throw e -> e = SyntaxError.
Proof.
  unfold JSON.parse. destruct (JSON.lex JSON.LStart text) as [ts|].
  - destruct (JSON.prun (JSON.ExpectValue []) ts); [discriminate|].
    now intros [= <-].
  - now intros [= <-].
Qed.

(** C3, as the code has it.  The load yields the empty collection when
    the slot is missing or holds the empty string; for any other stored
    string it is [JSON.parse] of that string, so it yields the parsed value
    when the string parses and throws a [SyntaxError] when it does not. *)
Theorem initialCases_spec (saved : option string) :
  (saved = None \/ saved = Some "" -> initialCases saved = Ok (JSON.JArray []))
  /\ (forall text, saved = Some text -> text <> "" ->
        initialCases saved = JSON.parse text)
  /\ ((exists e, initialCases saved = Throw e)
      <-> exists text,
            saved = Some text /\ text <> "" /\ JSON.parse text = Throw SyntaxError).
Proof.
  split; [intros [->| ->]; reflexivity|].
  split.
  { intros text -> Hne. destruct text; [contradiction|reflexivity]. }
  split.
  - intros [e He]. destruct saved as [[|ch text]|]; try discriminate He.
    exists (String ch text). split; [reflexivity|]. split; [discriminate|].
    simpl in He. now rewrite He, (parse_throws_SyntaxError _ _ He).
  - intros [text [-> [Hne Ht]]]. exists SyntaxError.
    destruct text; [contradiction | exact Ht].
Qed.

Lemma initialCases_spec_witness :
  initialCases (Some "[]") = JSON.parse "[]"
  /\ initialCases None = Ok (JSON.JArray []).
Proof.
  split.
  - apply (proj1 (proj2 (initialCases_spec (Some "[]"))) "[]" eq_refl).
    discriminate.
  - apply (proj1 (initialCases_spec None)). now left.
Defined.

(** C3, as stated, fails: a stored string that does not parse makes the
    load throw; no empty collection is returned. *)
Lemma initialCases_malformed_throws :
  JSON.parse "{" = Throw SyntaxError
  /\ initialCases (Some "{") = Throw SyntaxError
  /\ initialCases (Some "{") <> Ok (JSON.JArray []).
Proof. repeat split. discriminate. Qed.

(** ** Handlers of the collection *)

Lemma spread_id (s : Step) : spread s = s.
Proof. now destruct s. Qed.

Lemma map_spread (ss : list Step) : map spread ss = ss.
Proof.
  induction ss as [|s ss IH]; [reflexivity|]. simpl. now rewrite spread_id, IH.
Qed.

Lemma addCase_assigns (st : Page.State) :
  exists st',
    Page.addCase st = Ok st'
    /\ Page.cases st'
       = (Page.cases st
            ++ [mkTestCase ("TC-" ++ str_nat (List.length (Page.cases st) + 1))
                  (Page.title st) (Page.precondition st) (Page.steps st)])%list.
Proof.
  eexists. split; [reflexivity|]. simpl. now rewrite map_spread.
Qed.

(** Without a deletion in between, the ids of added cases differ. *)
Lemma addCase_twice_distinct (st st1 st2 : Page.State) :
  Page.addCase st = Ok st1 -> Page.addCase st1 = Ok st2 ->
  exists c1 c2,
    Page.cases st2 = (Page.cases st ++ [c1; c2])%list /\ id c1 <> id c2.
Proof.
  intros [= <-] [= <-]. do 2 eexists. split.
  - simpl. rewrite <- app_assoc. reflexivity.
  - simpl. intros [= H]. apply str_nat_inj in H.
    rewrite length_app in H. simpl in H. lia.
Qed.

(** C4, at the run add, add, delete the first case, add: the third case
    gets the id of the second, TC-2, which is still in the collection. *)
Theorem addCase_repeats_id_after_delete :
  exists st,
    Page.run [Page.AddCase; Page.AddCase; Page.DeleteCase 0 true; Page.AddCase]
             Page.initial = Ok st
    /\ map id (Page.cases st) = ["TC-2"; "TC-2"]
    /\ ~ NoDup (map id (Page.cases st)).
Proof.
  eexists. split; [reflexivity|]. split; [reflexivity|].
  intro H. inversion H as [|x l Hin _]. apply Hin. now left.
Qed.

Lemma saved_id (editing : string) (st : Page.State) (c : TestCase) :
  id (Page.saved editing st c) = id c.
Proof. unfold Page.saved. now destruct (id c =? editing)%string. Qed.

Lemma saveCase_cases (st : Page.State) :
  exists st',
    Page.saveCase st = Ok st'
    /\ Page.cases st'
       = match Page.editingId st with
         | None | Some EmptyString => Page.cases st
         | Some editing => map (Page.saved editing st) (Page.cases st)
         end.
Proof.
  unfold Page.saveCase.
  destruct (Page.editingId st) as [[|ch editing]|]; eexists; split; reflexivity.
Qed.

(** C5, as the code has it.  A commit of the edit session on [editing]
    returns normally; it gives every case whose id is [editing] the title,
    the precondition and the steps of the form, all three in the one new
    collection, and closes the session.  When no case has that id, the
    collection stays as it is and nothing is raised. *)
Theorem saveCase_replaces (st : Page.State) (editing : string) :
  Page.editingId st = Some editing -> editing <> "" ->
  exists st',
    Page.saveCase st = Ok st'
    /\ Page.editingId st' = None
    /\ List.length (Page.cases st') = List.length (Page.cases st)
    /\ (forall i c,
          nth_error (Page.cases st) i = Some c -> id c = editing ->
          nth_error (Page.cases st') i
          = Some (mkTestCase editing (Page.title st) (Page.precondition st)
                    (Page.steps st)))
    /\ ((forall c, In c (Page.cases st) -> id c <> editing) ->
        Page.cases st' = Page.cases st).
Proof.
  intros He Hne. unfold Page.saveCase. rewrite He.
  destruct editing as [|ch editing]; [contradiction|].
  eexists. split; [reflexivity|]. split; [reflexivity|].
  cbn [Page.cases Page.resetForm Page.setSteps Page.setPrecondition
       Page.setTitle Page.setEditingId Page.setCases].
  split; [apply length_map|]. split.
  - intros i c Hc Hid. rewrite nth_error_map, Hc. cbn [option_map].
    unfold Page.saved. rewrite Hid, String.eqb_refl. now rewrite map_spread.
  - intro Habsent. rewrite <- (map_id (Page.cases st)) at 2.
    apply map_ext_in. intros c Hc. unfold Page.saved.
    destruct (String.eqb_spec (id c) (String ch editing)) as [E|_]; [|reflexivity].
    now apply Habsent in Hc.
Qed.

Lemma saveCase_replaces_witness :
  exists st',
    Page.saveCase (Page.mkState [scenario_case] "Sign in" "" [] (Some "TC-1")) = Ok st'
    /\ Page.cases st' = [mkTestCase "TC-1" "Sign in" "" []].
Proof.
  destruct (saveCase_replaces
              (Page.mkState [scenario_case] "Sign in" "" [] (Some "TC-1")) "TC-1"
              eq_refl ltac:(discriminate))
    as [st' [E [_ [_ [H _]]]]].
  exists st'. split; [exact E|].
  pose proof (H 0 scenario_case eq_refl eq_refl) as H0.
  destruct (Page.cases st') as [|c [|c' rest]] eqn:Hc.
  - discriminate H0.
  - now injection H0 as ->.
  - injection E as <-. discriminate Hc.
Defined.

(** C5, as stated, fails: a commit for an id that no case has returns
    normally with the collection unchanged; it raises nothing. *)
Lemma saveCase_absent_id_returns :
  let st := Page.mkState [scenario_case] "Sign in" "" [] (Some "TC-9") in
  (forall c, In c (Page.cases st) -> id c <> "TC-9")
  /\ Page.saveCase st = Ok (Page.mkState [scenario_case] "" "" [Page.emptyStep] None)
  /\ ~ (exists e, Page.saveCase st = Throw e).
Proof.
  cbv zeta. split; [|split].
  - intros c [<-|[]]. discriminate.
  - reflexivity.
  - intros [e H]. discriminate H.
Qed.




(** ** Collections the page can reach *)

Lemma modify_at_Forall {A} (P : A -> Prop) (f : A -> Result A) (i : nat)
    (xs ys : list A) :
  (forall x y, P x -> f x = Ok y -> P y) ->
  Forall P xs -> Page.modify_at i f xs = Ok ys -> Forall P ys.
Proof.
  intros Hf. revert i ys. induction xs as [|x xs IH]; intros i ys Hxs H.
  - destruct i; discriminate H.
  - inversion Hxs as [|? ? Hx Hrest]; subst. destruct i; simpl in H.
    + destruct (f x) as [y|e] eqn:E; [|discriminate H].
      injection H as <-. constructor; [now apply (Hf x)|exact Hrest].
    + destruct (Page.modify_at i f xs) as [zs|e] eqn:E; [|discriminate H].
      injection H as <-. constructor; [exact Hx|]. now apply (IH i).
Qed.

Lemma handle_total (e : Page.Event) (st : Page.State) :
  exists st', Page.handle e st = Ok st'.
Proof.
  destruct e; simpl.
  - eexists; reflexivity.
  - destruct (nth_error (Page.cases st) position); eexists; reflexivity.
  - destruct (saveCase_cases st) as [st' [E _]]. now exists st'.
  - destruct (nth_error (Page.cases st) position); [|eexists; reflexivity].
    unfold Page.deleteCase. destruct confirmed; eexists; reflexivity.
  - unfold Page.clearCases. destruct confirmed; eexists; reflexivity.
  - eexists; reflexivity.
  - eexists; reflexivity.
  - destruct (Page.addBranch stepIdx st); eexists; reflexivity.
  - destruct (Page.deleteBranch stepIdx branchIdx st); eexists; reflexivity.
  - eexists; reflexivity.
  - destruct (Page.writeBranch casePos stepPos branchPos b (Page.cases st));
      eexists; reflexivity.
Qed.

(** No handler throws: every sequence of user actions runs to a state. *)
Lemma run_total (es : list Page.Event) (st : Page.State) :
  exists st', Page.run es st = Ok st'.
Proof.
  revert st. induction es as [|e es IH]; intro st; simpl.
  - now exists st.
  - destruct (handle_total e st) as [st1 E]. rewrite E. simpl. apply IH.
Qed.

Lemma handle_ids (e : Page.Event) (st st' : Page.State) :
  Page.handle e st = Ok st' ->
  Forall (fun c => assignedId (id c)) (Page.cases st) ->
  Forall (fun c => assignedId (id c)) (Page.cases st').
Proof.
  intros H Hst. destruct e; simpl in H.
  - injection H as <-. simpl. apply Forall_app. split; [exact Hst|].
    constructor; [|constructor]. simpl. now eexists.
  - destruct (nth_error (Page.cases st) position); now injection H as <-.
  - destruct (saveCase_cases st) as [st1 [E Hc]]. rewrite E in H.
    injection H as <-. rewrite Hc.
    destruct (Page.editingId st) as [[|ch editing]|]; try exact Hst.
    apply Forall_map. apply (Forall_impl _ (P := fun c => assignedId (id c)));
      [|exact Hst].
    intros c Hid. now rewrite saved_id.
  - destruct (nth_error (Page.cases st) position); [|now injection H as <-].
    unfold Page.deleteCase in H. destruct confirmed; injection H as <-;
      [|exact Hst].
    simpl. rewrite Forall_forall in *. intros c Hc.
    apply filter_In in Hc. now apply Hst.
  - unfold Page.clearCases in H. destruct confirmed; injection H as <-;
      [constructor | exact Hst].
  - now injection H as <-.
  - now injection H as <-.
  - unfold Page.addBranch in H.
    destruct (Page.modify_at stepIdx _ (Page.steps st)); now injection H as <-.
  - unfold Page.deleteBranch in H.
    destruct (Page.modify_at stepIdx _ (Page.steps st)); now injection H as <-.
  - now injection H as <-.
  - destruct (Page.writeBranch casePos stepPos branchPos b (Page.cases st))
      as [cs|err] eqn:E; injection H as <-; [|exact Hst].
    simpl. unfold Page.writeBranch in E.
    refine (modify_at_Forall _ _ _ _ _ _ Hst E).
    intros c c' Hc Hc'. simpl in Hc'.
    destruct (Page.modify_at stepPos _ (Model.steps c)); [|discriminate Hc'].
    now injection Hc' as <-.
Qed.

(** Every id of a collection built by the page from the empty one is an
    id that [addCase] assigned. *)
Lemma run_ids (es : list Page.Event) (st st' : Page.State) :
  Page.run es st = Ok st' ->
  Forall (fun c => assignedId (id c)) (Page.cases st) ->
  Forall (fun c => assignedId (id c)) (Page.cases st').
Proof.
  revert st. induction es as [|e es IH]; intros st H Hst; simpl in H.
  - now injection H as <-.
  - destruct (Page.handle e st) as [st1|err] eqn:E; [|discriminate H].
    simpl in H. apply (IH st1 H). now apply (handle_ids e st).
Qed.

(** On a collection built by the page from the empty one, the report
    export returns, and every branch entry is the placeholder entry. *)
Lemma exportHtml_reachable (es : list Page.Event) (st : Page.State) :
  Page.run es Page.initial = Ok st ->
  (exists html, exportHtml (Page.cases st) = Ok html)
  /\ forall c b,
       In c (Page.cases st) ->
       branchItem (Page.cases st) c b
       = Ok ("<li>条件: " ++ condition b ++ " → 下一步: " ++ unknownStep ++ "</li>").
Proof.
  intro H. apply run_ids in H; [|constructor]. split.
  - now apply exportHtml_total.
  - intros c b Hc. apply branchItem_assigned.
    rewrite Forall_forall in H. now apply H.
Qed.

(** * Further properties *)

(** ** Report exporter: when it throws, and what it writes *)

Lemma mapM_ext_in {A B} (f g : A -> Result B) (xs : list A) :
  (forall x, In x xs -> f x = g x) -> mapM f xs = mapM g xs.
Proof.
  induction xs as [|x xs IH]; intro H; [reflexivity|].
  simpl. rewrite (H x (or_introl eq_refl)), IH; [reflexivity|].
  intros y Hy. apply H. now right.
Qed.

Lemma mapM_nth {A B} (f : A -> Result B) (xs : list A) (ys : list B) :
  mapM f xs = Ok ys ->
  List.length ys = List.length xs
  /\ forall i x, nth_error xs i = Some x ->
       exists y, nth_error ys i = Some y /\ f x = Ok y.
Proof.
  revert ys. induction xs as [|x xs IH]; intros ys H; simpl in H.
  - injection H as <-. split; [reflexivity|]. intros [|i] x Hx; discriminate Hx.
  - destruct (f x) as [y|e] eqn:Hy; [|discriminate H]. simpl in H.
    destruct (mapM f xs) as [zs|e] eqn:Hzs; [|discriminate H].
    injection H as <-. destruct (IH zs eq_refl) as [Hlen Hnth].
    split; [simpl; now rewrite Hlen|].
    intros [|i] x' Hx'; simpl in Hx'.
    + injection Hx' as <-. now exists y.
    + now apply Hnth.
Qed.

(** The loop either returns, or stops at an element whose callback throws
    and throws what the callback threw. *)
Lemma mapM_result {A B} (f : A -> Result B) (xs : list A) :
  (exists ys, mapM f xs = Ok ys)
  \/ (exists e x, In x xs /\ f x = Throw e /\ mapM f xs = Throw e).
Proof.
  induction xs as [|x xs IH]; [left; now exists []|].
  simpl. destruct (f x) as [y|e] eqn:Hy.
  - destruct IH as [[ys Hys]|[e [x' [Hin [Hx' Hthrow]]]]].
    + left. rewrite Hys. now exists (y :: ys).
    + right. rewrite Hthrow. exists e, x'. repeat split; auto.
  - right. exists e, x. repeat split; auto.
Qed.

Lemma mapM_throws_iff {A B} (f : A -> Result B) (xs : list A) :
  (exists e, mapM f xs = Throw e) <-> exists e x, In x xs /\ f x = Throw e.
Proof.
  split.
  - intros [e He]. destruct (mapM_result f xs) as [[ys Hys]|[e' [x [Hin [Hx H]]]]].
    + rewrite Hys in He. discriminate He.
    + now exists e', x.
  - intros [e [x [Hin Hx]]].
    destruct (mapM_result f xs) as [[ys Hys]|[e' [x' [_ [_ H]]]]].
    + destruct (mapM_nth f xs ys Hys) as [_ Hnth].
      apply In_nth_error in Hin as [i Hi].
      destruct (Hnth i x Hi) as [y [_ Hy]]. rewrite Hy in Hx. discriminate Hx.
    + now exists e'.
Qed.

Lemma property_inherited_iff {A} (xs : list A) (key : string) :
  property xs key = Inherited <-> In key inherited_names.
Proof.
  split.
  - unfold property. destruct (canonical_index key) as [n|].
    + destruct (nth_error xs n); discriminate.
    + destruct (existsb (String.eqb key) inherited_names) eqn:E; [|discriminate].
      intros _. apply existsb_exists in E as [name [Hin Heq]].
      apply String.eqb_eq in Heq. now subst.
  - intro H. unfold inherited_names in H. simpl in H.
    repeat (destruct H as [<-|H]; [reflexivity|]). contradiction.
Qed.

Lemma branchItem_throws_iff (cases : list TestCase) (c : TestCase) (b : Branch) (e : Error) :
  branchItem cases c b = Throw e
  <-> e = TypeError /\ In (id c) inherited_names.
Proof.
  rewrite <- (property_inherited_iff cases). unfold branchItem, branchTarget.
  destruct (property cases (id c)); simpl; split; try discriminate.
  - intros [_ H]. discriminate H.
  - intros [= <-]. now split.
  - now intros [-> _].
  - intros [_ H]. discriminate H.
Qed.

Lemma stepItem_throws_iff (cases : list TestCase) (c : TestCase) (s : Step) (e : Error) :
  stepItem cases c s = Throw e
  <-> e = TypeError /\ branchesOf s <> [] /\ In (id c) inherited_names.
Proof.
  unfold stepItem, branchList, branchesOf.
  destruct (branches s) as [[|b bs]|].
  - simpl. split; [discriminate|]. now intros [_ [H _]].
  - destruct (mapM_result (branchItem cases c) (b :: bs))
      as [[items Hok]|[e' [b' [Hin [Hb' Hthrow]]]]].
    + rewrite Hok. simpl. split; [discriminate|]. intros [-> [_ Hid]].
      destruct (mapM_nth _ _ _ Hok) as [_ Hnth].
      destruct (Hnth 0 b eq_refl) as [y [_ Hy]].
      assert (Hb : branchItem cases c b = Throw TypeError)
        by (apply branchItem_throws_iff; now split).
      rewrite Hy in Hb. discriminate Hb.
    + rewrite Hthrow. simpl. apply branchItem_throws_iff in Hb' as [-> Hid].
      split.
      * intros [= <-]. repeat split; [discriminate | exact Hid].
      * now intros [-> _].
  - simpl. split; [discriminate|]. now intros [_ [H _]].
Qed.

Lemma caseCard_throws_iff (cases : list TestCase) (c : TestCase) (e : Error) :
  caseCard cases c = Throw e
  <-> e = TypeError
      /\ (exists s, In s (steps c) /\ branchesOf s <> [])
      /\ In (id c) inherited_names.
Proof.
  unfold caseCard.
  destruct (mapM_result (stepItem cases c) (steps c))
    as [[items Hok]|[e' [s [Hin [Hs Hthrow]]]]].
  - rewrite Hok. simpl. split; [discriminate|].
    intros [-> [[s [Hin Hbs]] Hid]].
    destruct (mapM_nth _ _ _ Hok) as [_ Hnth].
    apply In_nth_error in Hin as [i Hi].
    destruct (Hnth i s Hi) as [y [_ Hy]].
    assert (Hs : stepItem cases c s = Throw TypeError)
      by (apply stepItem_throws_iff; now repeat split).
    rewrite Hy in Hs. discriminate Hs.
  - rewrite Hthrow. simpl. apply stepItem_throws_iff in Hs as [-> [Hbs Hid]].
    split.
    + intros [= <-]. repeat split; [now exists s | exact Hid].
    + now intros [-> _].
Qed.

(** X1. [exportHtml] throws exactly when some case that has a step with
    at least one branch carries an id that is the name of a property every
    array has ([length], [map], [constructor], ...); what it throws is a
    [TypeError].  In every other case it returns the document. *)
Theorem exportHtml_throws_iff (cases : list TestCase) :
  ((exists e, exportHtml cases = Throw e)
   <-> exists c s,
         In c cases /\ In s (steps c) /\ branchesOf s <> []
         /\ In (id c) inherited_names)
  /\ (forall e, exportHtml cases = Throw e -> e = TypeError)
  /\ ((exists html, exportHtml cases = Ok html) \/ exportHtml cases = Throw TypeError).
Proof.
  unfold exportHtml.
  destruct (mapM_result (caseCard cases) cases)
    as [[cards Hok]|[e' [c [Hin [Hc Hthrow]]]]].
  - rewrite Hok. simpl. split; [|split].
    + split; [intros [e He]; discriminate He|].
      intros [c [s [Hc [Hs [Hbs Hid]]]]].
      destruct (mapM_nth _ _ _ Hok) as [_ Hnth].
      apply In_nth_error in Hc as [i Hi].
      destruct (Hnth i c Hi) as [y [_ Hy]].
      assert (H : caseCard cases c = Throw TypeError).
      { apply caseCard_throws_iff. split; [reflexivity|]. split; [now exists s|exact Hid]. }
      rewrite Hy in H. discriminate H.
    + intros e He. discriminate He.
    + left. eexists; reflexivity.
  - rewrite Hthrow. simpl.
    apply caseCard_throws_iff in Hc as [-> [[s [Hs Hbs]] Hid]].
    split; [|split].
    + split; [|intros _; now exists TypeError].
      intros _. now exists c, s.
    + now intros e [= <-].
    + now right.
Qed.

Lemma exportHtml_throws_iff_witness :
  exists e,
    exportHtml
      [mkTestCase "map" "" "" [mkStep "a" Success "" None (Some [mkBranch "x" 0%Z])]]
    = Throw e.
Proof.
  apply (proj2 (proj1 (exportHtml_throws_iff _))).
  eexists. eexists. split; [left; reflexivity|]. split; [left; reflexivity|].
  split; [discriminate|]. unfold inherited_names. simpl. tauto.
Defined.

Lemma caseCard_assigned_alone (cases : list TestCase) (c : TestCase) :
  assignedId (id c) -> caseCard cases c = caseCard [] c.
Proof.
  intro H. unfold caseCard. f_equal. apply mapM_ext_in. intros s _.
  unfold stepItem. f_equal. unfold branchList.
  destruct (branches s) as [[|b bs]|]; try reflexivity.
  f_equal. apply mapM_ext_in. intros b' _.
  now rewrite !branchItem_assigned.
Qed.

(** X2. For every collection that the page builds from the empty one,
    whatever the user does, [exportHtml] returns a document: the head, one
    card per case in the order of the collection, and the tail.  The card
    of a case is the one the case would get alone (it does not depend on
    the other cases), and every branch entry in it is the placeholder
    entry. *)
Theorem exportHtml_page_built (es : list Page.Event) (st : Page.State) :
  Page.run es Page.initial = Ok st ->
  exists cards,
    exportHtml (Page.cases st) = Ok (htmlHead ++ join "" cards ++ htmlTail)
    /\ List.length cards = List.length (Page.cases st)
    /\ (forall i c,
          nth_error (Page.cases st) i = Some c ->
          exists card, nth_error cards i = Some card /\ caseCard [] c = Ok card)
    /\ (forall c b,
          In c (Page.cases st) ->
          branchItem (Page.cases st) c b
          = Ok ("<li>条件: " ++ condition b ++ " → 下一步: " ++ unknownStep ++ "</li>")).
Proof.
  intro H. apply run_ids in H; [|constructor].
  rewrite Forall_forall in H.
  destruct (mapM_total (caseCard (Page.cases st)) (Page.cases st)) as [cards [E _]].
  { intros c Hc. apply caseCard_total. now apply H. }
  exists cards. unfold exportHtml. rewrite E. split; [reflexivity|].
  destruct (mapM_nth _ _ _ E) as [Hlen Hnth].
  split; [exact Hlen|]. split.
  - intros i c Hi. destruct (Hnth i c Hi) as [card [Hcard Hc]].
    exists card. split; [exact Hcard|].
    rewrite <- (caseCard_assigned_alone (Page.cases st)); [exact Hc|].
    apply H. now apply (nth_error_In _ i).
  - intros c b Hc. apply branchItem_assigned. now apply H.
Qed.

Lemma exportHtml_page_built_witness :
  exists cards,
    exportHtml [mkTestCase "TC-1" "" "" [Page.emptyStep]]
    = Ok (htmlHead ++ join "" cards ++ htmlTail)
    /\ List.length cards = 1.
Proof.
  destruct (exportHtml_page_built [Page.AddCase]
              (Page.mkState [mkTestCase "TC-1" "" "" [Page.emptyStep]] "" ""
                 [Page.emptyStep] None)
              eq_refl)
    as [cards [E [Hlen _]]].
  exists cards. split; [exact E | exact Hlen].
Defined.

(** ** Deleting and adding cases *)

Lemma filter_idem {A} (p : A -> bool) (xs : list A) :
  filter p (filter p xs) = filter p xs.
Proof.
  induction xs as [|x xs IH]; [reflexivity|]. simpl.
  destruct (p x) eqn:E; [|exact IH]. simpl. now rewrite E, IH.
Qed.

Lemma filter_all {A} (p : A -> bool) (xs : list A) :
  (forall x, In x xs -> p x = true) -> filter p xs = xs.
Proof.
  induction xs as [|x xs IH]; intro H; [reflexivity|]. simpl.
  rewrite (H x (or_introl eq_refl)), IH; [reflexivity|].
  intros y Hy. apply H. now right.
Qed.

Lemma filter_id_count (key : string) (cs : list TestCase) :
  List.length (filter (fun c => negb (String.eqb (id c) key)) cs)
  + count_occ string_dec (map id cs) key
  = List.length cs.
Proof.
  induction cs as [|c cs IH]; [reflexivity|]. simpl.
  destruct (String.eqb_spec (id c) key) as [E|E];
    destruct (string_dec (id c) key) as [E'|E']; try contradiction; simpl; lia.
Qed.

(** X3. A confirmed [deleteCase] removes every case that has the given
    id, duplicates included, and no other case; the form and the edit
    session are not touched.  When no case has the id it changes nothing,
    deleting again changes nothing more, and a deletion that the user does
    not confirm changes nothing. *)
Theorem deleteCase_removes (key : string) (st : Page.State) :
  exists st',
    Page.deleteCase key true st = Ok st'
    /\ (forall c, In c (Page.cases st') <-> In c (Page.cases st) /\ id c <> key)
    /\ List.length (Page.cases st')
       + count_occ string_dec (map id (Page.cases st)) key
       = List.length (Page.cases st)
    /\ ((forall c, In c (Page.cases st) -> id c <> key) -> st' = st)
    /\ Page.deleteCase key true st' = Ok st'
    /\ Page.deleteCase key false st = Ok st
    /\ Page.title st' = Page.title st
    /\ Page.precondition st' = Page.precondition st
    /\ Page.steps st' = Page.steps st
    /\ Page.editingId st' = Page.editingId st.
Proof.
  eexists. split; [reflexivity|]. simpl. split.
  { intro c. rewrite filter_In. split; intros [Hin H]; (split; [exact Hin|]).
    - intro E. rewrite E, String.eqb_refl in H. discriminate H.
    - now apply negb_true_iff, String.eqb_neq. }
  split; [apply filter_id_count|]. split.
  { intro H. unfold Page.setCases. rewrite filter_all.
    - now destruct st.
    - intros c Hc. apply negb_true_iff, String.eqb_neq. now apply H. }
  split.
  { unfold Page.deleteCase, Page.setCases. simpl. now rewrite filter_idem. }
  repeat split.
Qed.

Lemma deleteCase_removes_witness :
  exists st',
    Page.deleteCase "TC-1" true
      (Page.mkState [mkTestCase "TC-2" "" "" []] "" "" [] None) = Ok st'
    /\ st' = Page.mkState [mkTestCase "TC-2" "" "" []] "" "" [] None.
Proof.
  destruct (deleteCase_removes "TC-1"
              (Page.mkState [mkTestCase "TC-2" "" "" []] "" "" [] None))
    as [st' [E [_ [_ [H _]]]]].
  exists st'. split; [exact E|]. apply H.
  intros c [<-|[]]. discriminate.
Defined.

Lemma map_saved_absent (editing : string) (st : Page.State) (cs : list TestCase) :
  (forall c, In c cs -> id c <> editing) -> map (Page.saved editing st) cs = cs.
Proof.
  induction cs as [|c cs IH]; intro H; [reflexivity|]. simpl.
  rewrite IH by (intros x Hx; apply H; now right).
  unfold Page.saved.
  destruct (String.eqb_spec (id c) editing) as [E|_]; [|reflexivity].
  now apply H in E; [|left].
Qed.

(** X4. When the case under edit is deleted before the edit is saved,
    [saveCase] stores nothing: the collection stays as the deletion left
    it, no case with the edited id comes back, and the draft is dropped
    with the form reset. *)
Theorem saveCase_after_delete (st : Page.State) (editing : string) :
  Page.editingId st = Some editing -> editing <> "" ->
  exists st1 st2,
    Page.deleteCase editing true st = Ok st1
    /\ Page.saveCase st1 = Ok st2
    /\ Page.cases st2 = Page.cases st1
    /\ (forall c, In c (Page.cases st2) -> id c <> editing)
    /\ Page.editingId st2 = None
    /\ Page.steps st2 = [Page.emptyStep]
    /\ Page.title st2 = "" /\ Page.precondition st2 = "".
Proof.
  intros He Hne. destruct editing as [|ch editing]; [contradiction|].
  eexists. eexists. split; [reflexivity|].
  unfold Page.saveCase. simpl. rewrite He.
  split; [reflexivity|]. simpl.
  assert (Hgone : forall c,
             In c (filter (fun c => negb (String.eqb (id c) (String ch editing)))
                     (Page.cases st)) ->
             id c <> String ch editing).
  { intros c Hc. apply filter_In in Hc as [_ Hc].
    now apply negb_true_iff, String.eqb_neq in Hc. }
  split.
  { now apply map_saved_absent. }
  split.
  { intros c Hc. rewrite map_saved_absent in Hc by exact Hgone.
    now apply Hgone. }
  repeat split.
Qed.

Lemma saveCase_after_delete_witness :
  exists st1 st2,
    Page.deleteCase "TC-1" true
      (Page.mkState [scenario_case] "Sign in" "" [] (Some "TC-1")) = Ok st1
    /\ Page.saveCase st1 = Ok st2
    /\ Page.cases st2 = Page.cases st1.
Proof.
  destruct (saveCase_after_delete
              (Page.mkState [scenario_case] "Sign in" "" [] (Some "TC-1")) "TC-1"
              eq_refl ltac:(discriminate))
    as [st1 [st2 [E1 [E2 [H _]]]]].
  now exists st1, st2.
Defined.

(** *** Ids *)

Lemma sequentialIds_NoDup (cs : list TestCase) :
  sequentialIds cs -> NoDup (map id cs).
Proof.
  unfold sequentialIds. intros ->. apply Finite.Injective_map_NoDup.
  - intros a b [= H]. apply str_nat_inj in H. lia.
  - apply seq_NoDup.
Qed.

Lemma sequentialIds_same_ids (cs cs' : list TestCase) :
  map id cs' = map id cs -> sequentialIds cs -> sequentialIds cs'.
Proof.
  unfold sequentialIds. intros E H.
  assert (Hlen : List.length cs' = List.length cs).
  { rewrite <- (length_map id cs'), E. apply length_map. }
  now rewrite E, Hlen.
Qed.

Lemma modify_at_map {A B} (g : A -> B) (f : A -> Result A) (i : nat) (xs ys : list A) :
  (forall x y, f x = Ok y -> g y = g x) ->
  Page.modify_at i f xs = Ok ys -> map g ys = map g xs.
Proof.
  intro Hf. revert i ys. induction xs as [|x xs IH]; intros i ys H.
  - destruct i; discriminate H.
  - destruct i; simpl in H.
    + destruct (f x) as [y|e] eqn:E; [|discriminate H].
      injection H as <-. simpl. now rewrite (Hf x y E).
    + destruct (Page.modify_at i f xs) as [zs|e] eqn:E; [|discriminate H].
      injection H as <-. simpl. now rewrite (IH i zs E).
Qed.

Lemma handle_sequential (e : Page.Event) (st st' : Page.State) :
  removesCase e = false ->
  Page.handle e st = Ok st' ->
  sequentialIds (Page.cases st) -> sequentialIds (Page.cases st').
Proof.
  intros Hrem H Hst. destruct e; simpl in H.
  - injection H as <-. simpl. unfold sequentialIds in *.
    rewrite map_app, length_app, Hst. simpl.
    rewrite Nat.add_1_r at 2. rewrite seq_S, map_app. reflexivity.
  - destruct (nth_error (Page.cases st) position); now injection H as <-.
  - destruct (saveCase_cases st) as [st1 [E Hc]]. rewrite E in H.
    injection H as <-. refine (sequentialIds_same_ids _ _ _ Hst). rewrite Hc.
    destruct (Page.editingId st) as [[|ch editing]|]; try reflexivity.
    rewrite map_map. apply map_ext. intro c. apply saved_id.
  - destruct confirmed; [discriminate Hrem|].
    destruct (nth_error (Page.cases st) position); now injection H as <-.
  - unfold Page.clearCases in H. destruct confirmed; injection H as <-;
      [reflexivity | exact Hst].
  - now injection H as <-.
  - now injection H as <-.
  - unfold Page.addBranch in H.
    destruct (Page.modify_at stepIdx _ (Page.steps st)); now injection H as <-.
  - unfold Page.deleteBranch in H.
    destruct (Page.modify_at stepIdx _ (Page.steps st)); now injection H as <-.
  - now injection H as <-.
  - destruct (Page.writeBranch casePos stepPos branchPos b (Page.cases st))
      as [cs|err] eqn:E; injection H as <-; [|exact Hst].
    simpl. refine (sequentialIds_same_ids _ _ _ Hst).
    unfold Page.writeBranch in E.
    refine (modify_at_map id _ _ _ _ _ E).
    intros c c' Hc'. simpl in Hc'.
    destruct (Page.modify_at stepPos _ (Model.steps c)); [|discriminate Hc'].
    now injection Hc' as <-.
Qed.

(** X5. As long as the user confirms no deletion of a case, the ids of
    the collection are TC-1, TC-2, ... in the order of the collection,
    whatever else happens (adding, editing, saving, clearing, changes of
    the form), and so no two cases share an id. *)
Theorem run_sequential_ids (es : list Page.Event) (st : Page.State) :
  forallb (fun e => negb (removesCase e)) es = true ->
  Page.run es Page.initial = Ok st ->
  sequentialIds (Page.cases st) /\ NoDup (map id (Page.cases st)).
Proof.
  intros Hes H.
  assert (Hseq : sequentialIds (Page.cases st)).
  { assert (Hinit : sequentialIds (Page.cases Page.initial)) by reflexivity.
    revert H Hinit. generalize Page.initial as st0.
    induction es as [|e es IH]; intros st0 H Hst0; simpl in H.
    - now injection H as <-.
    - simpl in Hes. apply andb_true_iff in Hes as [He Hes].
      apply negb_true_iff in He.
      destruct (Page.handle e st0) as [st1|err] eqn:E; [|discriminate H].
      simpl in H. apply (IH Hes st1 H). now apply (handle_sequential e st0). }
  split; [exact Hseq | now apply sequentialIds_NoDup].
Qed.

Lemma run_sequential_ids_witness :
  NoDup ["TC-1"; "TC-2"].
Proof.
  exact (proj2 (run_sequential_ids
                  [Page.AddCase; Page.EditCase 0; Page.SaveCase; Page.AddCase]
                  (Page.mkState
                     [mkTestCase "TC-1" "" "" [Page.withBranches Page.emptyStep []];
                      mkTestCase "TC-2" "" "" [Page.emptyStep]]
                     "" "" [Page.emptyStep] None)
                  eq_refl eq_refl)).
Defined.

Lemma map_filter_comm {A B} (g : A -> B) (p : B -> bool) (xs : list A) :
  map g (filter (fun x => p (g x)) xs) = filter p (map g xs).
Proof.
  induction xs as [|x xs IH]; [reflexivity|]. simpl.
  destruct (p (g x)); simpl; now rewrite IH.
Qed.

Lemma filter_seq_except (i n : nat) :
  i < n ->
  filter (fun k => negb (Nat.eqb k i)) (seq 0 n) = (seq 0 i ++ seq (S i) (n - S i))%list.
Proof.
  intro H. replace n with (i + S (n - S i)) at 1 by lia.
  rewrite seq_app, filter_app. simpl. rewrite Nat.eqb_refl. simpl. f_equal.
  - apply filter_all. intros k Hk. apply in_seq in Hk.
    apply negb_true_iff, Nat.eqb_neq. lia.
  - apply filter_all. intros k Hk. apply in_seq in Hk.
    apply negb_true_iff, Nat.eqb_neq. lia.
Qed.

Lemma assigned_eqb (k i : nat) :
  String.eqb ("TC-" ++ str_nat (k + 1)) ("TC-" ++ str_nat (i + 1)) = Nat.eqb k i.
Proof.
  destruct (Nat.eqb_spec k i) as [->|Hne].
  - apply String.eqb_refl.
  - apply String.eqb_neq. intros [= H]. apply str_nat_inj in H. lia.
Qed.

(** X6. In a collection with the ids TC-1 ... TC-n, deleting the case
    at position [i] and then adding a case gives the new case the id
    TC-n.  The ids stay distinct exactly when the deleted case was the last
    one; after the deletion of any other case the new case shares its id
    with the case that was last. *)
Theorem delete_then_add_ids (st : Page.State) (i : nat) :
  sequentialIds (Page.cases st) ->
  i < List.length (Page.cases st) ->
  exists st',
    Page.run [Page.DeleteCase i true; Page.AddCase] st = Ok st'
    /\ List.length (Page.cases st') = List.length (Page.cases st)
    /\ option_map id (nth_error (Page.cases st') (List.length (Page.cases st) - 1))
       = Some ("TC-" ++ str_nat (List.length (Page.cases st)))
    /\ (NoDup (map id (Page.cases st')) <-> S i = List.length (Page.cases st)).
Proof.
  intros Hseq Hi. set (n := List.length (Page.cases st)) in *.
  set (f := fun k => "TC-" ++ str_nat (k + 1)).
  destruct (nth_error (Page.cases st) i) as [tc|] eqn:Htc;
    [|apply nth_error_None in Htc; fold n in Htc; lia].
  assert (Hid : id tc = f i).
  { assert (H : nth_error (map id (Page.cases st)) i = Some (id tc))
      by now rewrite nth_error_map, Htc.
    rewrite Hseq, nth_error_map in H. fold n in H.
    rewrite nth_error_seq in H.
    destruct (Nat.ltb_spec i n) as [_|Hge]; [|lia].
    simpl in H. now injection H as <-. }
  set (rest := filter (fun c => negb (String.eqb (id c) (id tc))) (Page.cases st)).
  assert (Hrest : map id rest = map f (seq 0 i ++ seq (S i) (n - S i))%list).
  { unfold rest.
    rewrite (map_filter_comm id (fun s => negb (String.eqb s (id tc)))).
    rewrite Hseq. fold n. fold f.
    rewrite <- (map_filter_comm f (fun s => negb (String.eqb s (id tc)))).
    f_equal. rewrite <- (filter_seq_except i n Hi).
    apply filter_ext. intro k. rewrite Hid. unfold f. now rewrite assigned_eqb. }
  assert (Hlen : List.length rest = n - 1).
  { rewrite <- (length_map id), Hrest, length_map, length_app, !length_seq. lia. }
  eexists. split.
  { simpl. rewrite Htc. simpl. reflexivity. }
  simpl. fold rest. rewrite Hlen, map_spread.
  replace (n - 1 + 1) with n by lia.
  split; [rewrite length_app, Hlen; simpl; lia|].
  split.
  { rewrite nth_error_app2 by lia. rewrite Hlen, Nat.sub_diag. reflexivity. }
  rewrite map_app, Hrest. cbn [map id].
  assert (Hlast : [String "T" (String "C" (String "-" (str_nat n)))] = map f [n - 1]).
  { unfold f. cbn [map append]. replace (n - 1 + 1) with n by lia. reflexivity. }
  rewrite Hlast, <- map_app, <- app_assoc.
  assert (Hinj : forall a b, f a = f b -> a = b).
  { intros a b [= H]. apply str_nat_inj in H. lia. }
  split.
  - intro Hnd. apply NoDup_map_inv in Hnd.
    destruct (Nat.eq_dec (S i) n) as [E|Hne]; [exact E|exfalso].
    apply NoDup_app_remove_l in Hnd.
    apply NoDup_remove_2 in Hnd. apply Hnd. rewrite app_nil_r.
    apply in_seq. lia.
  - intro E. apply Finite.Injective_map_NoDup; [exact Hinj|].
    replace (n - S i) with 0 by lia. simpl.
    replace (n - 1) with i by lia.
    change (seq 0 i ++ [i])%list with (seq 0 i ++ seq (0 + i) 1)%list.
    rewrite <- seq_app. apply seq_NoDup.
Qed.

Lemma delete_then_add_ids_witness :
  exists st',
    Page.run [Page.DeleteCase 0 true; Page.AddCase]
      (Page.mkState [mkTestCase "TC-1" "" "" []; mkTestCase "TC-2" "" "" []]
         "" "" [] None) = Ok st'
    /\ ~ NoDup (map id (Page.cases st')).
Proof.
  destruct (delete_then_add_ids
              (Page.mkState [mkTestCase "TC-1" "" "" []; mkTestCase "TC-2" "" "" []]
                 "" "" [] None) 0 eq_refl ltac:(simpl; lia))
    as [st' [E [_ [_ H]]]].
  exists st'. split; [exact E|]. intro Hnd. apply H in Hnd. discriminate Hnd.
Defined.

(** ** Missing and empty branch lists; an edit session without changes *)

Lemma mapi_from_map_in {A B C} (f : B -> nat -> C) (h : A -> B) (xs : list A) (i : nat) :
  mapi_from f i (map h xs) = mapi_from (fun x k => f (h x) k) i xs.
Proof. revert i; induction xs; intro i; simpl; [reflexivity | now rewrite IHxs]. Qed.

Lemma mapM_map_in {A B C} (f : B -> Result C) (h : A -> B) (xs : list A) :
  mapM f (map h xs) = mapM (fun x => f (h x)) xs.
Proof. induction xs; simpl; [reflexivity | now rewrite IHxs]. Qed.

Lemma branchesOf_default (s : Step) : branchesOf (withDefaultBranches s) = branchesOf s.
Proof. reflexivity. Qed.

Lemma generateMermaid_normalized (c : TestCase) :
  generateMermaid (normalized c) = generateMermaid c.
Proof.
  rewrite !generateMermaid_render. unfold edges, normalized, mapi. simpl steps.
  now rewrite !mapi_from_map_in.
Qed.

Lemma stepTopic_default (s : Step) (idx : nat) :
  stepTopic (withDefaultBranches s) idx = stepTopic s idx.
Proof. unfold stepTopic, withDefaultBranches, branchesOf. simpl. now destruct (branches s). Qed.

Lemma caseTopic_normalized (c : TestCase) : caseTopic (normalized c) = caseTopic c.
Proof.
  unfold caseTopic, normalized, mapi. simpl. rewrite mapi_from_map_in.
  erewrite mapi_from_ext; [reflexivity|]. intros s k. apply stepTopic_default.
Qed.

Lemma exportExcel_row_normalized (c : TestCase) :
  exportExcel [normalized c] = exportExcel [c].
Proof.
  unfold exportExcel, normalized, mapi. cbn [map id title precondition steps].
  rewrite mapi_from_map_in.
  erewrite mapi_from_ext; [reflexivity|]. intros s k.
  unfold withDefaultBranches, branchesOf. simpl. now destruct (branches s).
Qed.

Lemma elem_map {A B} (h : A -> B) (xs : list A) (z : Z) :
  elem (map h xs) z = option_map h (elem xs z).
Proof. unfold elem. destruct (z <? 0)%Z; [reflexivity | apply nth_error_map]. Qed.

Section Selected.

Variable P : TestCase -> bool.

Let pick (c : TestCase) : TestCase := if P c then normalized c else c.

Lemma pick_id (c : TestCase) : id (pick c) = id c.
Proof. unfold pick. now destruct (P c). Qed.

Lemma pick_target (c : TestCase) (z : Z) :
  option_map action (elem (steps (pick c)) z) = option_map action (elem (steps c) z).
Proof.
  unfold pick. destruct (P c); [|reflexivity]. simpl. rewrite elem_map.
  now destruct (elem (steps c) z).
Qed.

Lemma branchTarget_pick (cases : list TestCase) (c c' : TestCase) (b : Branch) :
  id c' = id c -> branchTarget (map pick cases) c' b = branchTarget cases c b.
Proof.
  intro E. unfold branchTarget, property. rewrite E.
  destruct (canonical_index (id c)) as [n|]; [|reflexivity].
  rewrite nth_error_map. destruct (nth_error cases n) as [found|]; [|reflexivity].
  simpl. now rewrite pick_target.
Qed.

Lemma stepItem_pick (cases : list TestCase) (c c' : TestCase) (s : Step) :
  id c' = id c ->
  stepItem (map pick cases) c' s = stepItem cases c s
  /\ stepItem (map pick cases) c' (withDefaultBranches s) = stepItem cases c s.
Proof.
  intro E.
  assert (Hitems : forall bs,
             mapM (branchItem (map pick cases) c') bs = mapM (branchItem cases c) bs).
  { intro bs. apply mapM_ext_in. intros b _. unfold branchItem.
    now rewrite (branchTarget_pick cases c c' b E). }
  unfold stepItem, branchList, withDefaultBranches, branchesOf.
  cbn [branches action expectedStatus expectedValue].
  destruct (branches s) as [[|b bs]|]; try (split; reflexivity).
  now rewrite Hitems.
Qed.

Lemma caseCard_pick (cases : list TestCase) (c : TestCase) :
  caseCard (map pick cases) (pick c) = caseCard cases c.
Proof.
  unfold caseCard. rewrite pick_id.
  assert (Hsteps : mapM (stepItem (map pick cases) (pick c)) (steps (pick c))
                   = mapM (stepItem cases c) (steps c)).
  { unfold pick at 3. destruct (P c).
    - simpl steps. rewrite mapM_map_in. apply mapM_ext_in. intros s _.
      apply (stepItem_pick cases c (pick c) s (pick_id c)).
    - apply mapM_ext_in. intros s _.
      apply (stepItem_pick cases c (pick c) s (pick_id c)). }
  rewrite Hsteps.
  assert (Hfields : title (pick c) = title c /\ precondition (pick c) = precondition c)
    by (unfold pick; destruct (P c); split; reflexivity).
  destruct Hfields as [-> ->]. reflexivity.
Qed.

(** Reading a missing [branches] as the empty list, in any choice of
    cases, changes none of the four outputs. *)
Lemma exports_pick (cases : list TestCase) :
  map generateMermaid (map pick cases) = map generateMermaid cases
  /\ exportExcel (map pick cases) = exportExcel cases
  /\ exportXMind (map pick cases) = exportXMind cases
  /\ exportHtml (map pick cases) = exportHtml cases.
Proof.
  split; [|split; [|split]].
  - rewrite map_map. apply map_ext. intro c. unfold pick.
    destruct (P c); [apply generateMermaid_normalized | reflexivity].
  - unfold exportExcel. rewrite map_map. apply map_ext. intro c. unfold pick.
    destruct (P c); [|reflexivity].
    pose proof (exportExcel_row_normalized c) as H. unfold exportExcel in H.
    cbn [map] in H. exact (f_equal (hd []) H).
  - unfold exportXMind. rewrite map_map.
    erewrite map_ext; [reflexivity|]. intro c. unfold pick.
    destruct (P c); [apply caseTopic_normalized | reflexivity].
  - unfold exportHtml. rewrite mapM_map_in. f_equal.
    apply mapM_ext_in. intros c _. apply caseCard_pick.
Qed.

End Selected.

(** X7. A step whose [branches] is missing and the same step with an
    empty [branches] list are rendered alike: replacing, in any cases of a
    collection, every missing [branches] by the empty list changes neither
    the graph description of any case nor the rows, the outline or the
    report of the collection. *)
Theorem exports_ignore_missing_branches (P : TestCase -> bool) (cases : list TestCase) :
  let cases' := map (fun c => if P c then normalized c else c) cases in
  map generateMermaid cases' = map generateMermaid cases
  /\ exportExcel cases' = exportExcel cases
  /\ exportXMind cases' = exportXMind cases
  /\ exportHtml cases' = exportHtml cases.
Proof. exact (exports_pick P cases). Qed.





(** ** Steps and branches of the form *)

Lemma remove_at_nth {A} (idx : nat) (xs : list A) (k : nat) :
  nth_error (Page.remove_at idx xs) k
  = if (k <? idx)%nat then nth_error xs k else nth_error xs (S k).
Proof.
  revert idx k. induction xs as [|x xs IH]; intros idx k.
  - replace (Page.remove_at idx (@nil A)) with (@nil A) by now destruct idx.
    destruct (k <? idx)%nat; now destruct k.
  - destruct idx as [|idx]; [reflexivity|]. destruct k as [|k]; [reflexivity|].
    simpl Page.remove_at. simpl nth_error at 1. rewrite IH.
    change (S k <? S idx)%nat with (k <? idx)%nat.
    now destruct (k <? idx)%nat.
Qed.

Lemma remove_at_length {A} (idx : nat) (xs : list A) :
  List.length (Page.remove_at idx xs)
  = if (idx <? List.length xs)%nat then List.length xs - 1 else List.length xs.
Proof.
  revert idx. induction xs as [|x xs IH]; intro idx; [now destruct idx|].
  destruct idx as [|idx]; simpl; [lia|]. rewrite IH.
  change (S idx <? S (List.length xs))%nat with (idx <? List.length xs)%nat.
  destruct (Nat.ltb_spec idx (List.length xs)); lia.
Qed.

(** X9. [deleteStep] takes the step at [idx] out of the draft and leaves
    the collection alone; a position past the end changes nothing.  The
    steps before [idx] stay where they are, and each later step moves one
    position down unchanged, with the [dependsOn] and [nextStep] values it
    had: a reference to a position [z >= idx] now reads the step that was
    at [z + 1]. *)
Theorem deleteStep_shifts (idx : nat) (st : Page.State) :
  exists st',
    Page.deleteStep idx st = Ok st'
    /\ Page.cases st' = Page.cases st
    /\ List.length (Page.steps st')
       = (if (idx <? List.length (Page.steps st))%nat
          then List.length (Page.steps st) - 1
          else List.length (Page.steps st))
    /\ (List.length (Page.steps st) <= idx -> st' = st)
    /\ (forall k, k < idx ->
          nth_error (Page.steps st') k = nth_error (Page.steps st) k)
    /\ (forall k, idx <= k ->
          nth_error (Page.steps st') k = nth_error (Page.steps st) (S k))
    /\ (forall z, (Z.of_nat idx <= z)%Z ->
          elem (Page.steps st') z = elem (Page.steps st) (z + 1)).
Proof.
  eexists. split; [reflexivity|]. simpl. split; [reflexivity|].
  split; [apply remove_at_length|]. split.
  { intro H. destruct st as [cs t p ss e]. unfold Page.setSteps. simpl in *.
    f_equal. apply nth_error_ext. intro k. rewrite remove_at_nth.
    destruct (Nat.ltb_spec k idx); [reflexivity|].
    transitivity (@None Step); [|symmetry]; apply nth_error_None; lia. }
  split.
  { intros k H. rewrite remove_at_nth.
    now destruct (Nat.ltb_spec k idx); [|lia]. }
  split.
  { intros k H. rewrite remove_at_nth.
    now destruct (Nat.ltb_spec k idx); [lia|]. }
  intros z Hz. unfold elem.
  destruct (Z.ltb_spec z 0); [lia|]. destruct (Z.ltb_spec (z + 1) 0); [lia|].
  rewrite remove_at_nth. destruct (Nat.ltb_spec (Z.to_nat z) idx); [lia|].
  f_equal. lia.
Qed.

Lemma deleteStep_shifts_witness :
  exists st',
    Page.deleteStep 5 (Page.mkState [] "" "" [Page.emptyStep] None) = Ok st'
    /\ st' = Page.mkState [] "" "" [Page.emptyStep] None.
Proof.
  destruct (deleteStep_shifts 5 (Page.mkState [] "" "" [Page.emptyStep] None))
    as [st' [E [_ [_ [H _]]]]].
  exists st'. split; [exact E|]. apply H. simpl. lia.
Defined.

Lemma modify_at_missing {A} (i : nat) (f : A -> Result A) (xs : list A) :
  nth_error xs i = None -> Page.modify_at i f xs = Throw TypeError.
Proof.
  revert i. induction xs as [|x xs IH]; intros i H; [now destruct i|].
  destruct i as [|i]; [discriminate H|]. simpl. now rewrite IH.
Qed.

Lemma modify_at_throws {A} (i : nat) (f : A -> Result A) (xs : list A) (x : A) (e : Error) :
  nth_error xs i = Some x -> f x = Throw e -> Page.modify_at i f xs = Throw e.
Proof.
  revert i. induction xs as [|y xs IH]; intros i H Hf; [now destruct i|].
  destruct i as [|i]; simpl in *.
  - injection H as ->. now rewrite Hf.
  - now rewrite (IH i H Hf).
Qed.

Lemma modify_at_found {A} (i : nat) (f : A -> Result A) (xs : list A) (x y : A) :
  nth_error xs i = Some x -> f x = Ok y ->
  exists ys,
    Page.modify_at i f xs = Ok ys
    /\ List.length ys = List.length xs
    /\ nth_error ys i = Some y
    /\ forall k, k <> i -> nth_error ys k = nth_error xs k.
Proof.
  revert i. induction xs as [|z xs IH]; intros i H Hf; [now destruct i|].
  destruct i as [|i]; simpl in *.
  - injection H as ->. rewrite Hf. eexists. split; [reflexivity|].
    repeat split. intros [|k] Hk; [contradiction | reflexivity].
  - destruct (IH i H Hf) as [ys [E [Hlen [Hy Hk]]]]. rewrite E.
    eexists. split; [reflexivity|]. simpl. split; [now rewrite Hlen|].
    split; [exact Hy|]. intros [|k] Hne; [reflexivity|]. apply Hk. lia.
Qed.

(** X10. [addBranch] on a step of the draft appends the branch with the
    empty condition and the target 0 to the branches of that step, a
    missing [branches] counting as empty, and changes no other step and no
    stored case; the target of the new branch is a step of the draft.  On
    a position that is no step of the draft it throws a [TypeError]. *)
Theorem addBranch_appends (stepIdx : nat) (st : Page.State) :
  (forall s,
     nth_error (Page.steps st) stepIdx = Some s ->
     exists st',
       Page.addBranch stepIdx st = Ok st'
       /\ Page.cases st' = Page.cases st
       /\ List.length (Page.steps st') = List.length (Page.steps st)
       /\ nth_error (Page.steps st') stepIdx
          = Some (Page.withBranches s (branchesOf s ++ [mkBranch "" 0%Z])%list)
       /\ (forall k, k <> stepIdx ->
             nth_error (Page.steps st') k = nth_error (Page.steps st) k)
       /\ elem (Page.steps st') 0 <> None)
  /\ (nth_error (Page.steps st) stepIdx = None ->
      Page.addBranch stepIdx st = Throw TypeError).
Proof.
  split.
  - intros s Hs. unfold Page.addBranch.
    match goal with
    | |- context [Page.modify_at ?i ?f ?xs] =>
        destruct (modify_at_found i f xs s
                    (Page.withBranches s (branchesOf s ++ [mkBranch "" 0%Z])%list)
                    Hs eq_refl)
          as [ns [E [Hlen [Hnew Hrest]]]]
    end.
    rewrite E. eexists. split; [reflexivity|]. simpl.
    split; [reflexivity|]. split; [exact Hlen|]. split; [exact Hnew|].
    split; [exact Hrest|].
    unfold elem. simpl. destruct ns as [|n0 ns]; [|discriminate].
    destruct (Page.steps st); [now destruct stepIdx | discriminate Hlen].
  - intro H. unfold Page.addBranch. now rewrite modify_at_missing.
Qed.

Lemma addBranch_appends_witness :
  exists st',
    Page.addBranch 0 Page.initial = Ok st'
    /\ nth_error (Page.steps st') 0
       = Some (Page.withBranches Page.emptyStep [mkBranch "" 0%Z]).
Proof.
  destruct (proj1 (addBranch_appends 0 Page.initial) Page.emptyStep eq_refl)
    as [st' [E [_ [_ [H _]]]]].
  now exists st'.
Defined.

(** X11. [deleteBranch] on a step of the draft that has a [branches]
    list takes the branch at [branchIdx] out of it (none when the position
    is past the end) and changes no other step and no stored case.  It
    throws a [TypeError] when the step is missing or has no [branches]
    list. *)
Theorem deleteBranch_removes (stepIdx branchIdx : nat) (st : Page.State) :
  (forall s bs,
     nth_error (Page.steps st) stepIdx = Some s -> branches s = Some bs ->
     exists st',
       Page.deleteBranch stepIdx branchIdx st = Ok st'
       /\ Page.cases st' = Page.cases st
       /\ nth_error (Page.steps st') stepIdx
          = Some (Page.withBranches s (Page.remove_at branchIdx bs))
       /\ (forall k, k <> stepIdx ->
             nth_error (Page.steps st') k = nth_error (Page.steps st) k))
  /\ (forall s,
        nth_error (Page.steps st) stepIdx = Some s -> branches s = None ->
        Page.deleteBranch stepIdx branchIdx st = Throw TypeError)
  /\ (nth_error (Page.steps st) stepIdx = None ->
      Page.deleteBranch stepIdx branchIdx st = Throw TypeError).
Proof.
  split; [|split].
  - intros s bs Hs Hbs. unfold Page.deleteBranch.
    match goal with
    | |- context [Page.modify_at ?i ?f ?xs] =>
        assert (Hf : f s = Ok (Page.withBranches s (Page.remove_at branchIdx bs)))
          by (cbv beta; now rewrite Hbs);
        destruct (modify_at_found i f xs s _ Hs Hf) as [ns [E [_ [Hnew Hrest]]]]
    end.
    rewrite E. eexists. split; [reflexivity|]. simpl.
    split; [reflexivity|]. split; [exact Hnew | exact Hrest].
  - intros s Hs Hbs. unfold Page.deleteBranch.
    match goal with
    | |- context [Page.modify_at ?i ?f ?xs] =>
        assert (Hf : f s = Throw TypeError) by (cbv beta; now rewrite Hbs);
        rewrite (modify_at_throws i f xs s TypeError Hs Hf)
    end.
    reflexivity.
  - intro H. unfold Page.deleteBranch. now rewrite modify_at_missing.
Qed.

Lemma deleteBranch_removes_witness :
  Page.deleteBranch 0 0 Page.initial = Throw TypeError.
Proof.
  exact (proj1 (proj2 (deleteBranch_removes 0 0 Page.initial))
           Page.emptyStep eq_refl eq_refl).
Defined.

(** ** The target select of a branch *)


Lemma findIndex_None {A} (p : A -> bool) (xs : list A) :
  (forall x, In x xs -> p x = false) -> findIndex p xs = None.
Proof.
  induction xs as [|x xs IH]; intro H; [reflexivity|]. simpl.
  rewrite (H x (or_introl eq_refl)), IH; [reflexivity|].
  intros y Hy. apply H. now right.
Qed.










(** X13. The option of a step with an empty action carries the text
    "步骤 n" as its value.  When no step of the draft has exactly that text
    as its action, choosing the option changes nothing: the draft, the
    branch and the collection stay as they were, whatever stored cases
    share the branch. *)
Theorem selectTarget_unnamed_step (st : Page.State) (i bi idx : nat) (step : Step)
    (shared : list Place) :
  nth_error (Page.steps st) idx = Some step -> action step = "" ->
  (forall s, In s (Page.steps st) -> action s <> "步骤 " ++ str_nat (idx + 1)) ->
  optionValue step idx = "步骤 " ++ str_nat (idx + 1)
  /\ selectTarget i bi (optionValue step idx) shared st = Ok st.
Proof.
  intros Hidx Hact Hnone.
  assert (Hvalue : optionValue step idx = "步骤 " ++ str_nat (idx + 1))
    by (unfold optionValue; now rewrite Hact).
  split; [exact Hvalue|]. rewrite Hvalue. unfold selectTarget.
  rewrite findIndex_None; [reflexivity|].
  intros s Hs. apply String.eqb_neq. now apply Hnone.
Qed.

Lemma selectTarget_unnamed_step_witness :
  optionValue (mkStep "" Success "" None (Some [])) 3 = "步骤 4"
  /\ selectTarget 0 0 (optionValue (mkStep "" Success "" None (Some [])) 3)
       [(0, 0, 0)] editing_state
     = Ok editing_state.
Proof.
  apply (selectTarget_unnamed_step editing_state 0 0 3
           (mkStep "" Success "" None (Some [])) [(0, 0, 0)] eq_refl eq_refl).
  intros s [<-|[<-|[<-|[<-|[]]]]]; discriminate.
Defined.

(** ** Size and depth of the outline *)





Lemma cases_depth (cases : list TestCase) :
  list_max (map depth (map caseTopic cases))
  = if existsb hasBranch cases then 3
    else if existsb (fun c => match steps c with
                              | [] => false
                              | _ :: _ => true
                              end) cases
         then 2
         else match cases with
              | [] => 0
              | _ :: _ => 1
              end.
Proof.
  induction cases as [|c cases IH]; [reflexivity|].
  cbn [map list_max fold_right existsb].
  change (fold_right Nat.max 0 (map depth (map caseTopic cases)))
    with (list_max (map depth (map caseTopic cases))).
  rewrite IH, caseTopic_depth. clear IH.
  remember (existsb hasBranch cases) as hb eqn:Hhb. clear Hhb.
  remember (existsb _ cases) as hs eqn:Hhs. clear Hhs.
  destruct (hasBranch c), (steps c), hb, hs, cases; reflexivity.
Qed.

(** X15. The outline of a collection is between 1 and 4 topics deep: 1
    exactly for the empty collection, where the root stands alone, and 4
    exactly when some case has a step with a branch. *)
Theorem exportXMind_depth_bounds (cases : list TestCase) :
  1 <= depth (exportXMind cases) <= 4
  /\ (depth (exportXMind cases) = 1 <-> cases = [])
  /\ (depth (exportXMind cases) = 4 <-> exists c, In c cases /\ hasBranch c = true).
Proof.
  assert (H : depth (exportXMind cases) = S (list_max (map depth (map caseTopic cases)))).
  { unfold exportXMind, children, RootTopic. cbn [app]. apply depth_unfold. }
  rewrite H, cases_depth.
  destruct (existsb hasBranch cases) eqn:E.
  - apply existsb_exists in E. split; [lia|]. split.
    + split; [lia|]. intros ->. now destruct E.
    + split; [now intros _ | reflexivity].
  - assert (Hno : ~ exists c, In c cases /\ hasBranch c = true).
    { intro Hex. apply existsb_exists in Hex. rewrite Hex in E. discriminate E. }
    destruct (existsb (fun c => match steps c with
                                | [] => false
                                | _ :: _ => true
                                end) cases) eqn:E2.
    + split; [lia|]. split.
      * split; [lia|]. intros ->. discriminate E2.
      * split; [lia | intro Hex; now apply Hno in Hex].
    + destruct cases as [|c cases]; cbv beta iota.
      * split; [lia|]. split; [now split|]. split; [lia | intro Hex; now apply Hno in Hex].
      * split; [lia|]. split; [split; [lia|discriminate]|].
        split; [lia | intro Hex; now apply Hno in Hex].
Qed.

(** ** Status colours *)

(** X16. The style sheet of the report has exactly one rule for the
    class of each of the three statuses, and the colour that the rule
    declares is the colour that [statusColor] gives for the text of the
    status: green, red and orange, three different colours; [statusColor]
    gives black for the empty text. *)
Theorem statusColor_stylesheet :
  (forall s : Status,
     occurrences (".status-" ++ styleClass s ++ " {") htmlHead = 1
     /\ declaredColor htmlHead (".status-" ++ styleClass s)
        = Some (statusColor (status_text s)))
  /\ statusColor (status_text Success) = "green"
  /\ statusColor (status_text Failure) = "red"
  /\ statusColor (status_text Exception) = "orange"
  /\ (forall a b : Status,
        statusColor (status_text a) = statusColor (status_text b) -> a = b)
  /\ statusColor "" = "black".
Proof.
  split; [intro s; destruct s; split; vm_compute; reflexivity|].
  split; [reflexivity|]. split; [reflexivity|]. split; [reflexivity|].
  split; [|reflexivity].
  intros a b. destruct a, b; vm_compute; intro H;
    (reflexivity || discriminate H).
Qed.

(** ** Version argument of the release script *)

Lemma digit_not_v (c : ascii) : Release.isDigit c = true -> Ascii.eqb c "v" = false.
Proof.
  intro H. destruct (Ascii.eqb_spec c "v") as [->|_]; [discriminate H|reflexivity].
Qed.

Lemma skipDigits_prefix (s : string) :
  exists ds,
    s = ds ++ Release.skipDigits s
    /\ forall r, Release.replaceFirstV (ds ++ r) = ds ++ Release.replaceFirstV r.
Proof.
  induction s as [|c s [ds [Hs Hr]]].
  - exists "". split; reflexivity.
  - simpl. destruct (Release.isDigit c) eqn:E.
    + exists (String c ds). split; [simpl; now rewrite <- Hs|].
      intro r. simpl. now rewrite (digit_not_v c E), Hr.
    + exists "". split; reflexivity.
Qed.

Lemma digits1_prefix (s r : string) :
  Release.digits1 s = Some r ->
  Release.startsWithV s = false
  /\ exists ds,
       s = ds ++ r
       /\ forall r', Release.replaceFirstV (ds ++ r') = ds ++ Release.replaceFirstV r'.
Proof.
  destruct s as [|c s]; [discriminate|]. simpl.
  destruct (Release.isDigit c) eqn:E; [|discriminate].
  intros [= <-]. split; [now apply digit_not_v|].
  destruct (skipDigits_prefix s) as [ds [Hs Hr]].
  exists (String c ds). split; [simpl; now rewrite <- Hs|].
  intro r'. simpl. now rewrite (digit_not_v c E), Hr.
Qed.

Lemma dot_prefix (s r : string) :
  Release.dot s = Some r ->
  s = String "." r
  /\ forall r', Release.replaceFirstV (String "." r') = String "." (Release.replaceFirstV r').
Proof.
  destruct s as [|c s]; [discriminate|]. simpl.
  destruct (Ascii.eqb_spec c ".") as [->|_]; [|discriminate].
  intros [= <-]. split; reflexivity.
Qed.

Lemma matchesVersion_plain (s : string) :
  Release.matchesVersion s = true -> Release.startsWithV s = false ->
  Release.replaceFirstV s = s /\ Release.matchesVersion (String "v" s) = true.
Proof.
  intros H Hv.
  assert (Hbody : Release.matchesVersion (String "v" s) = Release.matchesVersion s).
  { unfold Release.matchesVersion at 2. destruct s as [|c s]; [reflexivity|].
    simpl in Hv. now rewrite Hv. }
  split; [|now rewrite Hbody].
  unfold Release.matchesVersion in H.
  assert (Hs : match s with
               | String c rest => if Ascii.eqb c "v" then rest else s
               | EmptyString => s
               end = s).
  { destruct s as [|c s]; [reflexivity|]. simpl in Hv. now rewrite Hv. }
  rewrite Hs in H. clear Hs Hbody.
  destruct (Release.digits1 s) as [r1|] eqn:E1; [|discriminate H].
  destruct (Release.dot r1) as [r2|] eqn:E2; [|discriminate H].
  destruct (Release.digits1 r2) as [r3|] eqn:E3; [|discriminate H].
  destruct (Release.dot r3) as [r4|] eqn:E4; [|discriminate H].
  destruct (Release.digits1 r4) as [[|c5 r5]|] eqn:E5; try discriminate H.
  apply digits1_prefix in E1 as [_ [d1 [-> H1]]].
  apply dot_prefix in E2 as [-> H2].
  apply digits1_prefix in E3 as [_ [d3 [-> H3]]].
  apply dot_prefix in E4 as [-> H4].
  apply digits1_prefix in E5 as [_ [d5 [-> H5]]].
  now rewrite H1, H2, H3, H4, H5.
Qed.

Lemma matchesVersion_tagged (s : string) :
  Release.matchesVersion (String "v" s) = true ->
  Release.matchesVersion s = true /\ Release.startsWithV s = false.
Proof.
  intro H.
  assert (Hv : Release.startsWithV s = false).
  { unfold Release.matchesVersion in H. simpl in H.
    destruct (Release.digits1 s) as [r1|] eqn:E1; [|discriminate H].
    now apply digits1_prefix in E1 as [Hv _]. }
  split; [|exact Hv].
  rewrite <- H. unfold Release.matchesVersion at 1.
  destruct s as [|c s]; [reflexivity|]. simpl in Hv. now rewrite Hv.
Qed.

(** X17. The release script accepts a version argument exactly when it
    is three groups of digits separated by dots, with or without a v in
    front; it stops with the usage error when the argument is missing,
    empty or of another form.  For an accepted argument the clean version
    is the argument without the v, the tag is the clean version with a v in
    front, and the argument with the v and the one without give the same
    pair. *)
Theorem versions_normalised (argument : option string) :
  (forall clean tag,
     Release.versions argument = Some (clean, tag) ->
     tag = String "v" clean
     /\ Release.startsWithV clean = false
     /\ Release.matchesVersion clean = true
     /\ (argument = Some clean \/ argument = Some tag)
     /\ Release.versions (Some clean) = Some (clean, tag)
     /\ Release.versions (Some tag) = Some (clean, tag))
  /\ (Release.versions argument = None
      <-> argument = None \/ argument = Some ""
          \/ exists version,
               argument = Some version /\ Release.matchesVersion version = false).
Proof.
  split.
  - intros clean tag H. destruct argument as [[|c version]|]; try discriminate H.
    unfold Release.versions in H.
    destruct (Release.matchesVersion (String c version)) eqn:Hm; [|discriminate H].
    destruct (Release.startsWithV (String c version)) eqn:Hv; injection H as <- <-.
    + simpl in Hv. apply Ascii.eqb_eq in Hv. subst c.
      apply matchesVersion_tagged in Hm as [Hm' Hv'].
      destruct (matchesVersion_plain version Hm' Hv') as [Hclean Htag].
      change (if Ascii.eqb "v" "v"
              then version
              else String "v" (Release.replaceFirstV version))
        with version.
      split; [reflexivity|]. split; [exact Hv'|]. split; [exact Hm'|].
      split; [now right|]. split.
      * unfold Release.versions. destruct version as [|c v']; [discriminate Hm'|].
        now rewrite Hm', Hv', Hclean.
      * unfold Release.versions. now rewrite Htag.
    + destruct (matchesVersion_plain _ Hm Hv) as [Hclean Htag].
      change (if Ascii.eqb c "v"
              then version
              else String c (Release.replaceFirstV version))
        with (Release.replaceFirstV (String c version)).
      rewrite Hclean. split; [reflexivity|]. split; [exact Hv|]. split; [exact Hm|].
      split; [now left|]. split.
      * unfold Release.versions. now rewrite Hm, Hv, Hclean.
      * unfold Release.versions. now rewrite Htag.
  - split.
    + intro H. destruct argument as [[|c version]|]; auto.
      right. right. exists (String c version). split; [reflexivity|].
      unfold Release.versions in H.
      now destruct (Release.matchesVersion (String c version)).
    + intros [->|[->|[version [-> Hm]]]]; try reflexivity.
      unfold Release.versions. rewrite Hm. now destruct version.
Qed.

Lemma versions_normalised_witness :
  Release.versions (Some "v1.20.3") = Some ("1.20.3", "v1.20.3")
  /\ Release.versions (Some "1.20.3") = Some ("1.20.3", "v1.20.3").
Proof.
  destruct (proj1 (versions_normalised (Some "1.20.3")) "1.20.3" "v1.20.3" eq_refl)
    as [_ [_ [_ [_ [H1 H2]]]]].
  split; [exact H2 | exact H1].
Defined.

(** ** Writing the collection and reading it back *)

Lemma option_map_app_nil {A} (x : option (list A)) : option_map (app []) x = x.
Proof. now destruct x. Qed.

Lemma option_map_app_app {A} (a b : list A) (x : option (list A)) :
  option_map (app a) (option_map (app b) x) = option_map (app (a ++ b)) x.
Proof. destruct x; simpl; [now rewrite app_assoc | reflexivity]. Qed.

Lemma lex_cons (st : JSON.lstate) (c : ascii) (rest : string) :
  JSON.lex st (String c rest)
  = match JSON.lex_step st c with
    | Some (toks, st') => option_map (app toks) (JSON.lex st' rest)
    | None => None
    end.
Proof. reflexivity. Qed.

(** Reads the characters at the head of the text that the goal lexes. *)
Ltac lex_head :=
  repeat (rewrite lex_cons;
          match goal with
          | |- context [JSON.lex_step ?s ?c] =>
              let r := eval vm_compute in (JSON.lex_step s c) in
              change (JSON.lex_step s c) with r
          end;
          cbv beta iota;
          rewrite ?option_map_app_nil).

(** One character of a string, written with its escape, is read back as
    that character. *)
Lemma lex_quoteChar (c : ascii) (seen : list ascii) (tail : string) :
  JSON.lex (JSON.LStr seen) (Storage.quoteChar c ++ tail)
  = JSON.lex (JSON.LStr (c :: seen)) tail.
Proof.
  destruct c as [b0 b1 b2 b3 b4 b5 b6 b7].
  destruct b0, b1, b2, b3, b4, b5, b6, b7;
    match goal with
    | |- context [Storage.quoteChar ?c] =>
        let q := eval vm_compute in (Storage.quoteChar c) in
        change (Storage.quoteChar c) with q
    end;
    cbn [append]; lex_head; reflexivity.
Qed.

Lemma lex_quoteBody (s : string) (seen : list ascii) (tail : string) :
  JSON.lex (JSON.LStr seen) (Storage.quoteBody s ++ dq ++ tail)
  = option_map
      (cons (JSON.TStr (JSON.text_of (rev (list_ascii_of_string s) ++ seen))))
      (JSON.lex JSON.LStart tail).
Proof.
  revert seen. induction s as [|c s IH]; intro seen.
  - cbn [Storage.quoteBody append dq]. lex_head.
    simpl. now destruct (JSON.lex JSON.LStart tail).
  - cbn [Storage.quoteBody]. rewrite append_assoc, lex_quoteChar, IH.
    simpl list_ascii_of_string. simpl rev. now rewrite <- app_assoc.
Qed.

(** A quoted string is read back as the token of that string. *)
Lemma lex_quote (s tail : string) :
  JSON.lex JSON.LStart (Storage.quote s ++ tail)
  = option_map (cons (JSON.TStr s)) (JSON.lex JSON.LStart tail).
Proof.
  unfold Storage.quote. rewrite !append_assoc. unfold dq at 1. cbn [append].
  rewrite lex_cons.
  change (JSON.lex_step JSON.LStart (ascii_of_nat 34))
    with (Some (@nil JSON.token, JSON.LStr [])).
  cbv beta iota. rewrite option_map_app_nil.
  rewrite lex_quoteBody, app_nil_r. unfold JSON.text_of.
  now rewrite rev_involutive, string_of_list_ascii_of_string.
Qed.

Lemma lex_delimited (n : JSON.nstate) (seen : list ascii) (tail : string) :
  n = JSON.NInt \/ n = JSON.NZero ->
  Storage.delimited tail ->
  JSON.lex (JSON.LNum n seen) tail
  = option_map (cons (JSON.TNum (JSON.text_of seen))) (JSON.lex JSON.LStart tail).
Proof.
  intros Hn [-> | [rest [-> | [-> | ->]]]].
  - destruct Hn as [-> | ->]; reflexivity.
  - destruct Hn as [-> | ->]; cbn [append]; lex_head;
      now destruct (JSON.lex JSON.LStart rest).
  - destruct Hn as [-> | ->]; cbn [append]; lex_head;
      now destruct (JSON.lex JSON.LStart rest).
  - destruct Hn as [-> | ->]; cbn [append]; lex_head;
      now destruct (JSON.lex JSON.LStart rest).
Qed.

(** The digits of a decimal number, read inside a number. *)
Lemma lex_digits (d : Decimal.uint) (seen : list ascii) (tail : string) :
  JSON.lex (JSON.LNum JSON.NInt seen) (NilEmpty.string_of_uint d ++ tail)
  = JSON.lex
      (JSON.LNum JSON.NInt
         (rev (list_ascii_of_string (NilEmpty.string_of_uint d)) ++ seen))
      tail.
Proof.
  revert seen.
  induction d as [|d IH|d IH|d IH|d IH|d IH|d IH|d IH|d IH|d IH|d IH]; intro seen;
    [reflexivity | ..];
    cbn [NilEmpty.string_of_uint append]; rewrite lex_cons;
    match goal with
    | |- context [JSON.lex_step ?s ?c] =>
        let r := eval vm_compute in (JSON.lex_step s c) in
        change (JSON.lex_step s c) with r
    end;
    cbv beta iota; rewrite option_map_app_nil, IH;
    simpl list_ascii_of_string; simpl rev; now rewrite <- app_assoc.
Qed.

Lemma text_of_digits (first : list ascii) (d : Decimal.uint) :
  JSON.text_of (rev (list_ascii_of_string (NilEmpty.string_of_uint d)) ++ rev first)
  = string_of_list_ascii first ++ NilEmpty.string_of_uint d.
Proof.
  unfold JSON.text_of. rewrite rev_app_distr, !rev_involutive.
  induction first as [|c first IH]; simpl.
  - apply string_of_list_ascii_of_string.
  - now rewrite IH.
Qed.

(** The decimal digits of a positive number start with a digit that is
    not zero. *)
Lemma to_uint_head (p : positive) :
  match Pos.to_uint p with
  | Decimal.Nil | Decimal.D0 _ => False
  | _ => True
  end.
Proof.
  pose proof (DecimalPos.Unsigned.to_uint_nonnil p) as Hnil.
  pose proof (DecimalPos.Unsigned.to_uint_nonzero p) as Hzero.
  pose proof (DecimalPos.Unsigned.to_of (Pos.to_uint p)) as Hnorm.
  rewrite DecimalPos.Unsigned.of_to in Hnorm. simpl N.to_uint in Hnorm.
  destruct (Pos.to_uint p) as [|d|d|d|d|d|d|d|d|d|d] eqn:E; try exact I.
  - now apply Hnil.
  - symmetry in Hnorm.
    destruct (Decimal.nzhead (Decimal.D0 d)) eqn:Hhead;
      [ unfold Decimal.unorm in Hnorm; rewrite Hhead in Hnorm; congruence
      | rewrite DecimalFacts.unorm_nzhead in Hnorm by (rewrite Hhead; discriminate);
        now apply DecimalFacts.nzhead_nonzero in Hnorm .. ].
Qed.

(** The digits of a positive number, with or without a minus sign before
    them, are read as one number token. *)
Lemma lex_positive (p : positive) (sign : bool) (tail : string) :
  Storage.delimited tail ->
  let lexeme :=
    (if sign then "-" else "") ++ NilEmpty.string_of_uint (Pos.to_uint p) in
  JSON.lex JSON.LStart (lexeme ++ tail)
  = option_map (cons (JSON.TNum lexeme)) (JSON.lex JSON.LStart tail).
Proof.
  intros Htail lexeme. subst lexeme. pose proof (to_uint_head p) as Hhead.
  destruct (Pos.to_uint p) as [|d|d|d|d|d|d|d|d|d|d]; try contradiction;
    destruct sign;
    cbn [NilEmpty.string_of_uint append]; lex_head;
    rewrite lex_digits, (lex_delimited JSON.NInt) by auto;
    match goal with
    | |- context [(rev ?l ++ ?first)%list] =>
        change first with (rev (rev first)); rewrite (text_of_digits (rev first) d)
    end;
    reflexivity.
Qed.

(** The text of an integer is read as one number token. *)
Lemma lex_number (z : Z) (tail : string) :
  Storage.delimited tail ->
  JSON.lex JSON.LStart (str_num z ++ tail)
  = option_map (cons (JSON.TNum (str_num z))) (JSON.lex JSON.LStart tail).
Proof.
  intro Htail. unfold str_num. destruct z as [|p|p].
  - change (NilZero.string_of_int (Z.to_int 0)) with "0". cbn [append].
    lex_head. now rewrite (lex_delimited JSON.NZero) by auto.
  - pose proof (DecimalPos.Unsigned.to_uint_nonnil p) as Hnil.
    pose proof (lex_positive p false tail Htail) as H. cbv zeta in H.
    cbn [Z.to_int NilZero.string_of_int]. unfold NilZero.string_of_uint.
    cbn [append] in H.
    destruct (Pos.to_uint p); [contradiction | exact H ..].
  - pose proof (DecimalPos.Unsigned.to_uint_nonnil p) as Hnil.
    pose proof (lex_positive p true tail Htail) as H. cbv zeta in H.
    cbn [Z.to_int NilZero.string_of_int]. unfold NilZero.string_of_uint.
    cbn [append] in H.
    destruct (Pos.to_uint p); [contradiction | exact H ..].
Qed.

Lemma value_induction (P : JSON.value -> Prop) :
  P JSON.JNull ->
  (forall b, P (JSON.JBool b)) ->
  (forall lexeme, P (JSON.JNumber lexeme)) ->
  (forall s, P (JSON.JString s)) ->
  (forall items, Forall P items -> P (JSON.JArray items)) ->
  (forall members, Forall (fun m => P (snd m)) members -> P (JSON.JObject members)) ->
  forall v, P v.
Proof.
  intros Hnull Hbool Hnum Hstr Harr Hobj. fix IH 1. intros [|b|lexeme|s|items|members].
  - exact Hnull.
  - apply Hbool.
  - apply Hnum.
  - apply Hstr.
  - apply Harr. induction items as [|x items IHitems]; constructor;
      [apply IH | exact IHitems].
  - apply Hobj. induction members as [|[k x] members IHmembers]; constructor;
      [apply IH | exact IHmembers].
Qed.

Lemma integral_items (items : list JSON.value) :
  Storage.integral (JSON.JArray items) <-> Forall Storage.integral items.
Proof.
  induction items as [|x items IH].
  - split; intros _; constructor.
  - split; intro H.
    + constructor; [exact (proj1 H) | apply IH; exact (proj2 H)].
    + inversion H as [|? ? Hx Hrest]; subst. split; [exact Hx | now apply IH].
Qed.

Lemma integral_members (members : list (string * JSON.value)) :
  Storage.integral (JSON.JObject members)
  <-> Forall (fun m => Storage.integral (snd m)) members.
Proof.
  induction members as [|m members IH].
  - split; intros _; constructor.
  - split; intro H.
    + constructor; [exact (proj1 H) | apply IH; exact (proj2 H)].
    + inversion H as [|? ? Hx Hrest]; subst. split; [exact Hx | now apply IH].
Qed.

Lemma delimited_comma (rest : string) : Storage.delimited ("," ++ rest).
Proof. right. exists rest. now left. Qed.

Lemma delimited_bracket (rest : string) : Storage.delimited ("]" ++ rest).
Proof. right. exists rest. right. now left. Qed.

Lemma delimited_brace (rest : string) : Storage.delimited ("}" ++ rest).
Proof. right. exists rest. right. now right. Qed.

Lemma lex_punctuation (tail : string) :
  JSON.lex JSON.LStart ("," ++ tail)
    = option_map (cons JSON.TComma) (JSON.lex JSON.LStart tail)
  /\ JSON.lex JSON.LStart (":" ++ tail)
    = option_map (cons JSON.TColon) (JSON.lex JSON.LStart tail)
  /\ JSON.lex JSON.LStart ("[" ++ tail)
    = option_map (cons JSON.TLBracket) (JSON.lex JSON.LStart tail)
  /\ JSON.lex JSON.LStart ("]" ++ tail)
    = option_map (cons JSON.TRBracket) (JSON.lex JSON.LStart tail)
  /\ JSON.lex JSON.LStart ("{" ++ tail)
    = option_map (cons JSON.TLBrace) (JSON.lex JSON.LStart tail)
  /\ JSON.lex JSON.LStart ("}" ++ tail)
    = option_map (cons JSON.TRBrace) (JSON.lex JSON.LStart tail).
Proof. repeat split; cbn [append]; lex_head; now destruct (JSON.lex JSON.LStart tail). Qed.

Lemma option_map_cons_app {A} (x : A) (ys : list A) (r : option (list A)) :
  option_map (cons x) (option_map (app ys) r) = option_map (app (x :: ys)) r.
Proof. now destruct r. Qed.

(** The text of a list of values, separated by commas and closed by
    [close], is read as their tokens. *)
Lemma lex_separated {A} (text : A -> string) (toks : A -> list JSON.token)
    (close : string) (closing : JSON.token) (xs : list A) (tail : string) :
  (forall rest,
     JSON.lex JSON.LStart (close ++ rest)
     = option_map (cons closing) (JSON.lex JSON.LStart rest)) ->
  Storage.delimited (close ++ tail) ->
  Forall (fun x =>
            forall rest, Storage.delimited rest ->
              JSON.lex JSON.LStart (text x ++ rest)
              = option_map (app (toks x)) (JSON.lex JSON.LStart rest)) xs ->
  JSON.lex JSON.LStart (join "," (map text xs) ++ close ++ tail)
  = option_map (app (Storage.separated (map toks xs) ++ [closing]))
      (JSON.lex JSON.LStart tail).
Proof.
  intros Hclose Hdel Hxs. induction Hxs as [|x xs Hx Hrest IH].
  - simpl. rewrite Hclose. now destruct (JSON.lex JSON.LStart tail).
  - destruct xs as [|y ys].
    + simpl. rewrite (Hx _ Hdel), Hclose.
      destruct (JSON.lex JSON.LStart tail); simpl;
        [now rewrite <- app_assoc | reflexivity].
    + change (join "," (map text (x :: y :: ys)))
        with (text x ++ "," ++ join "," (map text (y :: ys))).
      change (Storage.separated (map toks (x :: y :: ys)))
        with (toks x ++ JSON.TComma :: Storage.separated (map toks (y :: ys)))%list.
      rewrite !append_assoc, (Hx _ (delimited_comma _)).
      rewrite (proj1 (lex_punctuation _)), IH.
      rewrite option_map_cons_app, option_map_app_app.
      now rewrite <- app_assoc.
Qed.

(** The text that [stringify] writes for a value is read as the tokens
    of the value. *)
Lemma lex_stringify (v : JSON.value) :
  Storage.integral v ->
  forall tail, Storage.delimited tail ->
    JSON.lex JSON.LStart (Storage.stringify v ++ tail)
    = option_map (app (Storage.tokens v)) (JSON.lex JSON.LStart tail).
Proof.
  induction v as [|b|lexeme|s|items IH|members IH] using value_induction;
    intros Hint tail Htail.
  - cbn [Storage.stringify append]. lex_head. reflexivity.
  - destruct b; cbn [Storage.stringify append]; lex_head; reflexivity.
  - destruct Hint as [z ->]. cbn [Storage.stringify Storage.tokens].
    rewrite lex_number by exact Htail. now destruct (JSON.lex JSON.LStart tail).
  - cbn [Storage.stringify Storage.tokens]. rewrite lex_quote.
    now destruct (JSON.lex JSON.LStart tail).
  - cbn [Storage.stringify Storage.tokens]. rewrite !append_assoc.
    rewrite (proj1 (proj2 (proj2 (lex_punctuation _)))).
    rewrite (lex_separated Storage.stringify Storage.tokens "]" JSON.TRBracket).
    + apply option_map_cons_app.
    + intro rest. apply (lex_punctuation rest).
    + apply delimited_bracket.
    + apply integral_items in Hint. rewrite Forall_forall in *.
      intros x Hx rest Hrest. now apply IH; [|apply Hint|].
  - cbn [Storage.stringify Storage.tokens]. rewrite !append_assoc.
    rewrite (proj1 (proj2 (proj2 (proj2 (proj2 (lex_punctuation _)))))).
    rewrite (lex_separated
               (fun m => Storage.quote (fst m) ++ ":" ++ Storage.stringify (snd m))
               (fun m => JSON.TStr (fst m) :: JSON.TColon :: Storage.tokens (snd m))
               "}" JSON.TRBrace).
    + apply option_map_cons_app.
    + intro rest. apply (lex_punctuation rest).
    + apply delimited_brace.
    + apply integral_members in Hint. rewrite Forall_forall in *.
      intros m Hm rest Hrest. rewrite !append_assoc, lex_quote.
      rewrite (proj1 (proj2 (lex_punctuation _))).
      rewrite (IH m Hm (Hint m Hm) rest Hrest).
      now destruct (JSON.lex JSON.LStart rest).
Qed.

Lemma prun_cons (st : JSON.pstate) (t : JSON.token) (rest : list JSON.token) :
  JSON.prun st (t :: rest)
  = match JSON.pstep st t with
    | Some st' => JSON.prun st' rest
    | None => None
    end.
Proof. reflexivity. Qed.

Lemma separated_cons (g : list JSON.token) (gs : list (list JSON.token)) :
  Storage.separated (g :: gs)
  = (g ++ match gs with
          | [] => []
          | _ :: _ => JSON.TComma :: Storage.separated gs
          end)%list.
Proof. destruct gs; simpl; [now rewrite app_nil_r | reflexivity]. Qed.

(** The first token of a value opens a value, also right after an
    opening bracket. *)
Lemma tokens_start (v : JSON.value) (stack : list JSON.frame) :
  exists t ts,
    Storage.tokens v = t :: ts
    /\ JSON.pstep (JSON.ExpectValueOrEnd stack) t
       = JSON.pstep (JSON.ExpectValue (JSON.InArr [] :: stack)) t.
Proof. destruct v as [|[|]| | | |]; do 2 eexists; split; reflexivity. Qed.

Local Abbreviation parsed :=
  (fun v : JSON.value =>
     forall (stack : list JSON.frame) (rest : list JSON.token),
       JSON.prun (JSON.ExpectValue stack) (Storage.tokens v ++ rest)%list
       = JSON.prun (JSON.plug v stack) rest).

Lemma prun_items (items : list JSON.value) :
  Forall parsed items ->
  forall x done stack rest,
    parsed x ->
    JSON.prun (JSON.ExpectValue (JSON.InArr done :: stack))
      ((Storage.separated (map Storage.tokens (x :: items)) ++ [JSON.TRBracket])
         ++ rest)
    = JSON.prun (JSON.plug (JSON.JArray (rev done ++ x :: items)) stack) rest.
Proof.
  intro Hitems. induction Hitems as [|y items Hy Hitems IH];
    intros x done stack rest Hx; cbv beta in Hx.
  - simpl map. simpl Storage.separated. rewrite <- app_assoc, Hx.
    reflexivity.
  - change (map Storage.tokens (x :: y :: items))
      with (Storage.tokens x :: map Storage.tokens (y :: items)).
    rewrite separated_cons. cbn [map]. rewrite <- !app_assoc, Hx.
    cbn [app JSON.plug]. rewrite prun_cons. cbn [JSON.pstep].
    change (JSON.TComma :: Storage.separated (Storage.tokens y :: map Storage.tokens items))
      with (JSON.TComma :: Storage.separated (map Storage.tokens (y :: items))).
    specialize (IH y (x :: done) stack rest Hy).
    rewrite <- app_assoc in IH. cbn [app] in IH.
    cbn [rev] in IH. rewrite <- app_assoc in IH. exact IH.
Qed.

Lemma prun_members (members : list (string * JSON.value)) :
  Forall (fun m => parsed (snd m)) members ->
  forall m done stack rest,
    parsed (snd m) ->
    JSON.prun (JSON.ExpectKey done stack)
      ((Storage.separated
          (map (fun m => JSON.TStr (fst m) :: JSON.TColon :: Storage.tokens (snd m))
               (m :: members))
        ++ [JSON.TRBrace]) ++ rest)
    = JSON.prun (JSON.plug (JSON.JObject (rev done ++ m :: members)) stack) rest.
Proof.
  intro Hmembers. induction Hmembers as [|y members Hy Hmembers IH];
    intros [k x] done stack rest Hx; cbn [fst snd] in Hx.
  - cbn [map fst snd Storage.separated app].
    do 2 (rewrite prun_cons; cbn [JSON.pstep]).
    rewrite <- app_assoc, Hx. reflexivity.
  - cbn [map]. rewrite separated_cons. cbn [fst snd app].
    do 2 (rewrite prun_cons; cbn [JSON.pstep]). rewrite <- !app_assoc, Hx.
    cbn [app JSON.plug]. rewrite prun_cons. cbn [JSON.pstep].
    specialize (IH y ((k, x) :: done) stack rest Hy).
    cbn [map] in IH. rewrite <- app_assoc in IH. cbn [app] in IH.
    cbn [rev] in IH. rewrite <- app_assoc in IH. exact IH.
Qed.

(** The tokens of a value are parsed to the value. *)
Lemma prun_tokens (v : JSON.value) (stack : list JSON.frame) (rest : list JSON.token) :
  JSON.prun (JSON.ExpectValue stack) (Storage.tokens v ++ rest)
  = JSON.prun (JSON.plug v stack) rest.
Proof.
  revert stack rest.
  induction v as [|b|lexeme|s|items IH|members IH] using value_induction;
    intros stack rest; try reflexivity.
  - now destruct b.
  - cbn [Storage.tokens app]. rewrite prun_cons. cbn [JSON.pstep JSON.value_start].
    destruct items as [|x items]; [reflexivity|].
    inversion IH as [|? ? Hx Hitems]; subst.
    destruct (tokens_start x stack) as [t [ts [Ht Hstep]]].
    assert (Hfirst : exists more,
               ((Storage.separated (map Storage.tokens (x :: items)) ++ [JSON.TRBracket])
                  ++ rest)%list = t :: more).
    { cbn [map]. rewrite separated_cons, Ht. eexists. reflexivity. }
    destruct Hfirst as [more Hmore].
    transitivity
      (JSON.prun (JSON.ExpectValue (JSON.InArr [] :: stack))
         ((Storage.separated (map Storage.tokens (x :: items)) ++ [JSON.TRBracket])
            ++ rest)).
    + rewrite Hmore, !prun_cons. now rewrite Hstep.
    + apply prun_items; [exact Hitems | exact Hx].
  - cbn [Storage.tokens app]. rewrite prun_cons. cbn [JSON.pstep JSON.value_start].
    destruct members as [|m members]; [reflexivity|].
    inversion IH as [|? ? Hx Hmembers]; subst.
    transitivity
      (JSON.prun (JSON.ExpectKey [] stack)
         ((Storage.separated
             (map (fun m => JSON.TStr (fst m) :: JSON.TColon :: Storage.tokens (snd m))
                  (m :: members))
           ++ [JSON.TRBrace]) ++ rest)).
    + cbn [map]. rewrite separated_cons. reflexivity.
    + apply prun_members; [exact Hmembers | exact Hx].
Qed.

(** [JSON.parse] reads back every value that [stringify] wrote. *)
Lemma parse_stringify (v : JSON.value) :
  Storage.integral v -> JSON.parse (Storage.stringify v) = Ok v.
Proof.
  intro Hint. unfold JSON.parse.
  rewrite <- (append_nil_r (Storage.stringify v)).
  rewrite (lex_stringify v Hint "") by now left.
  change (JSON.lex JSON.LStart "") with (Some (@nil JSON.token)).
  cbn [option_map]. rewrite prun_tokens. reflexivity.
Qed.

Lemma asNumber_str_num (z : Z) :
  Storage.asNumber (JSON.JNumber (str_num z)) = Some z.
Proof.
  unfold Storage.asNumber, str_num. rewrite NilZero.isi.
  - simpl. now rewrite DecimalZ.of_to.
  - destruct z as [|p|p]; simpl; try discriminate.
    intros [= H]. now apply (DecimalPos.Unsigned.to_uint_nonnil p).
  - destruct z as [|p|p]; simpl; try discriminate.
    intros [= H]. now apply (DecimalPos.Unsigned.to_uint_nonnil p).
Qed.

Lemma asStatus_status_text (s : Status) :
  Storage.asStatus (JSON.JString (status_text s)) = Some s.
Proof. now destruct s. Qed.

Lemma all_map {A B} (write : A -> B) (read : B -> option A) (xs : list A) :
  (forall x, read (write x) = Some x) -> Storage.all read (map write xs) = Some xs.
Proof.
  intro H. induction xs as [|x xs IH]; [reflexivity|].
  simpl. now rewrite H, IH.
Qed.

Lemma asBranch_branchJson (b : Branch) : Storage.asBranch (Storage.branchJson b) = Some b.
Proof.
  destruct b as [c n]. unfold Storage.asBranch, Storage.branchJson.
  cbn [condition nextStep].
  change (Storage.field "condition" _) with (Some (JSON.JString c)).
  change (Storage.field "nextStep" _) with (Some (JSON.JNumber (str_num n))).
  cbn [Storage.required Storage.asString]. now rewrite asNumber_str_num.
Qed.

Lemma asStep_stepJson (s : Step) : Storage.asStep (Storage.stepJson s) = Some s.
Proof.
  destruct s as [a st e d bs]. unfold Storage.asStep, Storage.stepJson.
  cbn [action expectedStatus expectedValue dependsOn branches].
  destruct d as [d|], bs as [bs|]; cbn [app];
    match goal with
    | |- context [Storage.field "action" ?ms] =>
        change (Storage.field "action" ms) with (Some (JSON.JString a));
        change (Storage.field "expectedStatus" ms)
          with (Some (JSON.JString (status_text st)));
        change (Storage.field "expectedValue" ms) with (Some (JSON.JString e))
    end;
    cbn [Storage.required Storage.asString]; rewrite asStatus_status_text.
  - change (Storage.field "dependsOn" _) with (Some (JSON.JNumber (str_num d))).
    change (Storage.field "branches" _)
      with (Some (JSON.JArray (map Storage.branchJson bs))).
    cbn [Storage.optional Storage.asList].
    rewrite asNumber_str_num, (all_map _ _ _ asBranch_branchJson). reflexivity.
  - change (Storage.field "dependsOn" _) with (Some (JSON.JNumber (str_num d))).
    change (Storage.field "branches" _) with (@None JSON.value).
    cbn [Storage.optional]. rewrite asNumber_str_num. reflexivity.
  - change (Storage.field "dependsOn" _) with (@None JSON.value).
    change (Storage.field "branches" _)
      with (Some (JSON.JArray (map Storage.branchJson bs))).
    cbn [Storage.optional Storage.asList].
    rewrite (all_map _ _ _ asBranch_branchJson). reflexivity.
  - reflexivity.
Qed.

Lemma asCase_caseJson (c : TestCase) : Storage.asCase (Storage.caseJson c) = Some c.
Proof.
  destruct c as [i t p ss]. unfold Storage.asCase, Storage.caseJson.
  cbn [id title precondition steps].
  change (Storage.field "id" _) with (Some (JSON.JString i)).
  change (Storage.field "title" _) with (Some (JSON.JString t)).
  change (Storage.field "precondition" _) with (Some (JSON.JString p)).
  change (Storage.field "steps" _) with (Some (JSON.JArray (map Storage.stepJson ss))).
  cbn [Storage.required Storage.asString Storage.asList].
  now rewrite (all_map _ _ _ asStep_stepJson).
Qed.

Lemma integral_toJson (cases : list TestCase) : Storage.integral (Storage.toJson cases).
Proof.
  assert (Hbranch : forall b, Storage.integral (Storage.branchJson b)).
  { intro b. simpl. repeat split. now exists (nextStep b). }
  assert (Hstep : forall s, Storage.integral (Storage.stepJson s)).
  { intro s. unfold Storage.stepJson. apply integral_members.
    repeat (constructor; [exact I|]). apply Forall_app. split.
    - destruct (dependsOn s) as [d|]; repeat constructor. now exists d.
    - destruct (branches s) as [bs|]; repeat constructor.
      cbn [snd]. apply integral_items, Forall_map, Forall_forall.
      intros b _. apply Hbranch. }
  unfold Storage.toJson. apply integral_items, Forall_map, Forall_forall.
  intros c _. unfold Storage.caseJson. apply integral_members.
  repeat (constructor; [exact I|]). constructor; [|constructor].
  cbn [snd]. apply integral_items, Forall_map, Forall_forall.
  intros s _. apply Hstep.
Qed.

(** X18. What the page writes to storage after a change is read back at
    the next start as the collection that was written: the text
    [JSON.stringify(cases)] is not empty, [JSON.parse] accepts it, and the
    value it gives is the collection, case by case and field by field, a
    [dependsOn] or [branches] that was missing being missing again. *)
Theorem persisted_reloads (cases : list TestCase) :
  Storage.persisted cases <> ""
  /\ initialCases (Some (Storage.persisted cases)) = Ok (Storage.toJson cases)
  /\ Storage.fromJson (Storage.toJson cases) = Some cases.
Proof.
  assert (Hne : Storage.persisted cases <> "") by discriminate.
  split; [exact Hne|]. split.
  - unfold initialCases.
    destruct (Storage.persisted cases) as [|ch text] eqn:E; [contradiction|].
    rewrite <- E. apply parse_stringify, integral_toJson.
  - unfold Storage.fromJson, Storage.toJson, Storage.asList.
    apply all_map, asCase_caseJson.
Qed.

(** The text written for the collection of the scenario. *)
Example persisted_scenario :
  Storage.persisted [stepless_case]
  = "[{" ++ dq ++ "id" ++ dq ++ ":" ++ dq ++ "TC-1" ++ dq ++ ","
         ++ dq ++ "title" ++ dq ++ ":" ++ dq ++ dq ++ ","
         ++ dq ++ "precondition" ++ dq ++ ":" ++ dq ++ dq ++ ","
         ++ dq ++ "steps" ++ dq ++ ":[]}]".
Proof. reflexivity. Qed.

Lemma exportXMind_depth_bounds_witness :
  depth (exportXMind []) = 1.
Proof.
  exact (proj2 (proj1 (proj2 (exportXMind_depth_bounds []))) eq_refl).
Defined.
